(** * Catalogo de paises (integrador.py): modelo y verificacion

    A shallow embedding of [src/integrador.py].  Python strings are lists of
    Unicode code points, Python integers are [Z], the dictionaries of the
    catalogue are objects in a heap addressed by references (so that the
    aliasing between [paises_catalogo] and the result of [buscar_pais] is
    kept), and the functions that read the keyboard, print, or touch
    [paises.csv] live in a small state-and-exception monad over a record
    describing the process and its environment.  The builtins and the [csv]
    module are those of CPython 3.11; the file is seen through the rows that
    [csv.reader] yields, and standard output is taken to accept every text
    printed. *)

From Stdlib Require Import String Ascii.
From Stdlib Require Import List ZArith NArith QArith Bool Lia.
From Stdlib Require Import Permutation Sorted.
From Stdlib Require DecimalZ DecimalPos.
Import ListNotations.

Local Open Scope Z_scope.

(** ** Strings *)

(** A Python [str]: a sequence of code points. *)
Definition str := list N.

(** [a == b] on strings. *)
Fixpoint str_eqb (a b : str) : bool :=
  match a, b with
  | [], [] => true
  | x :: a', y :: b' => N.eqb x y && str_eqb a' b'
  | _, _ => false
  end.

(** Truthiness of a sequence ([if s:] / [if not s:]). *)
Definition vacia {A} (l : list A) : bool :=
  match l with [] => true | _ => false end.

(** [a.startswith-like] test used by [str_in]. *)
Fixpoint prefijo (a b : str) : bool :=
  match a, b with
  | [], _ => true
  | _ :: _, [] => false
  | x :: a', y :: b' => N.eqb x y && prefijo a' b'
  end.

(** Python's [a in b] on strings: [a] occurs in [b] as a contiguous run. *)
Fixpoint str_in (a b : str) : bool :=
  prefijo a b || match b with [] => false | _ :: b' => str_in a b' end.

(** [b] contains [a] as a substring. *)
Definition contiene (b a : str) : Prop := exists pre post, b = pre ++ a ++ post.

(** Code points of an ASCII literal, for writing examples. *)
Fixpoint de_ascii (s : String.string) : str :=
  match s with
  | String.EmptyString => []
  | String.String c s' => Ascii.N_of_ascii c :: de_ascii s'
  end.
Arguments de_ascii s%_string.

(** ** The Unicode tables and interpreter settings the program relies on

    [str.strip], [str.split], [str.lower], [str.isdigit], [int] and the
    [unicodedata] module are not code of the program; the embedding takes the
    character database as an interface. *)
Class Unicode := {
  (** [chr(c).isspace()], the whitespace of [strip()] and [split()] *)
  isspace : N -> bool;
  (** [s.lower()] *)
  lower : str -> str;
  (** [unicodedata.normalize('NFD', s)] *)
  NFD : str -> str;
  (** [unicodedata.category(chr(c)) == 'Mn'] *)
  category_Mn : N -> bool;
  (** [chr(c).isdigit()]: numeric type Digit or Decimal *)
  digito : N -> bool;
  (** the decimal digit value of a code point, if it is a decimal digit *)
  decimal : N -> option N;
  (** [sys.get_int_max_str_digits()]; 0 switches the limit off *)
  int_max_str_digits : nat
}.

(** ** Exceptions *)

Inductive excepcion : Set :=
| ValueError | OverflowError | ZeroDivisionError | OSError | EOFError
| AttributeError | KeyError | UnicodeEncodeError | CsvError.

Inductive resultado (A : Type) : Type :=
| Ok (a : A)
| Raise (e : excepcion).
Arguments Ok {A} a.
Arguments Raise {A} e.

Section Utilidades.
Context {U : Unicode}.

Fixpoint lstrip (s : str) : str :=
  match s with
  | c :: s' => if isspace c then lstrip s' else s
  | [] => []
  end.

(** [s.strip()] *)
Definition strip (s : str) : str := rev (lstrip (rev (lstrip s))).

(** [s.split()]: the maximal runs of non-whitespace, [pal] being the run
    under construction (reversed). *)
Fixpoint split_desde (pal s : str) : list str :=
  match s with
  | [] => if vacia pal then [] else [rev pal]
  | c :: s' =>
      if isspace c
      then (if vacia pal then split_desde [] s' else rev pal :: split_desde [] s')
      else split_desde (c :: pal) s'
  end.

Definition split (s : str) : list str := split_desde [] s.

(** [sep.join(l)] *)
Fixpoint join (sep : str) (l : list str) : str :=
  match l with
  | [] => []
  | [w] => w
  | w :: l' => w ++ sep ++ join sep l'
  end.

Definition espacio : str := [32%N].

(** [normalizar(texto)], lines 10-22. *)
Definition normalizar (texto : str) : str :=
  let texto := join espacio (split (lower (strip texto))) in
  filter (fun c => negb (category_Mn c)) (NFD texto).

(** [s.isdigit()]: non-empty and every character a digit. *)
Definition isdigit (s : str) : bool := negb (vacia s) && forallb digito s.

Fixpoint int_desde (acc : Z) (s : str) : resultado Z :=
  match s with
  | [] => Ok acc
  | c :: s' =>
      match decimal c with
      | Some d => int_desde (10 * acc + Z.of_N d) s'
      | None => Raise ValueError
      end
  end.

(** [int(s)] for a string without sign, blanks or underscores (every string
    that passed [isdigit] is one): the base-10 value, [ValueError] when a
    character is not a decimal digit or the digit limit is exceeded. *)
Definition int_ (s : str) : resultado Z :=
  if vacia s then Raise ValueError
  else if negb (Nat.eqb int_max_str_digits 0)
          && Nat.ltb int_max_str_digits (length s)
  then Raise ValueError
  else int_desde 0 s.

(** [int(s)] for any string.  The text is first brought to ASCII: a text
    that is not ASCII has its blanks replaced by spaces and its decimal
    digits by ASCII digits, and is refused if it holds anything else above
    the ASCII range. *)
Fixpoint a_ascii (s : str) : option str :=
  match s with
  | [] => Some []
  | c :: s' =>
      if N.ltb c 127 then option_map (cons c) (a_ascii s')
      else if isspace c then option_map (cons 32%N) (a_ascii s')
      else match decimal c with
           | Some d => option_map (cons (48 + d)%N) (a_ascii s')
           | None => None
           end
  end.

(** The blanks that [int] skips in ASCII text. *)
Definition blanco_ascii (c : N) : bool :=
  (N.leb 9 c && N.leb c 13) || N.eqb c 32.

Fixpoint sin_blancos (t : str) : str :=
  match t with
  | c :: t' => if blanco_ascii c then sin_blancos t' else t
  | [] => []
  end.

(** The digits of a numeral, single underscores allowed between them:
    the value so far, the number of digits so far, whether the last
    character was an underscore; the result is the value, the number of
    digits and the text that follows. *)
Fixpoint leer_cifras (t : str) (acc : Z) (n : nat) (guion : bool)
  : option (Z * nat * str) :=
  match t with
  | c :: t' =>
      if N.leb 48 c && N.leb c 57
      then leer_cifras t' (10 * acc + Z.of_N (c - 48)) (S n) false
      else if N.eqb c 95
      then (if guion then None else leer_cifras t' acc n true)
      else (if guion then None else Some (acc, n, t))
  | [] => if guion then None else Some (acc, n, t)
  end.

Definition int_texto (s : str) : resultado Z :=
  match (if forallb (fun c => N.ltb c 128) s then Some s else a_ascii s) with
  | None => Raise ValueError
  | Some t =>
      let t := sin_blancos t in
      let (signo, t) :=
        match t with
        | 43%N :: t' => (1, t')
        | 45%N :: t' => (-1, t')
        | _ => (1, t)
        end in
      match t with
      | 95%N :: _ => Raise ValueError
      | _ =>
          match leer_cifras t 0 0 false with
          | None => Raise ValueError
          | Some (v, n, resto) =>
              if Nat.eqb n 0 then Raise ValueError
              else if negb (Nat.eqb int_max_str_digits 0)
                      && Nat.ltb int_max_str_digits n
              then Raise ValueError
              else if vacia (sin_blancos resto) then Ok (signo * v)
              else Raise ValueError
          end
      end
  end.

End Utilidades.

(** ** Floats

    The only floating-point operation of the program is the true division
    [int / int] of [estadisticas].  CPython returns the binary64 number
    nearest to the exact quotient (ties to even) and raises [OverflowError]
    when that number would not be finite.  A float is represented by the
    rational it denotes. *)

Definition flotante := Q.

(** Nearest binary64 value of [n / d] for [0 < n] and [0 < d]: [e] is the
    binary exponent of the quotient, [u] the exponent of the unit in the last
    place (53 significant bits, subnormals below [2^-1022]); the result is
    the integer significand and [u]. *)
Definition redondear64 (n d : Z) : Z * Z :=
  let e0 := Z.log2 n - Z.log2 d in
  let e := if (if 0 <=? e0 then n <? d * 2 ^ e0 else n * 2 ^ (- e0) <? d)
           then e0 - 1 else e0 in
  let u := Z.max (e - 52) (-1074) in
  let num := if 0 <=? u then n else n * 2 ^ (- u) in
  let den := if 0 <=? u then d * 2 ^ u else d in
  let q := num / den in
  let r := num mod den in
  let q' := if (den <? 2 * r) || ((2 * r =? den) && Z.odd q) then q + 1 else q in
  (q', u).

Definition valor64 (mu : Z * Z) : flotante :=
  let (m, u) := mu in
  if 0 <=? u then inject_Z (m * 2 ^ u) else Qred (m # Z.to_pos (2 ^ (- u))).

(** [a / b] on Python integers. *)
Definition truediv (a b : Z) : resultado flotante :=
  if b =? 0 then Raise ZeroDivisionError
  else if a =? 0 then Ok (inject_Z 0)
  else
    let (m, u) := redondear64 (Z.abs a) (Z.abs b) in
    if (if 0 <=? u then 2 ^ 1024 <=? m * 2 ^ u else false)
    then Raise OverflowError
    else Ok (valor64 (Z.sgn a * Z.sgn b * m, u)).

(** [str(n)] for an integer: its base-10 numeral. *)
Fixpoint cifras (d : Decimal.uint) : str :=
  match d with
  | Decimal.Nil => []
  | Decimal.D0 d' => 48%N :: cifras d'
  | Decimal.D1 d' => 49%N :: cifras d'
  | Decimal.D2 d' => 50%N :: cifras d'
  | Decimal.D3 d' => 51%N :: cifras d'
  | Decimal.D4 d' => 52%N :: cifras d'
  | Decimal.D5 d' => 53%N :: cifras d'
  | Decimal.D6 d' => 54%N :: cifras d'
  | Decimal.D7 d' => 55%N :: cifras d'
  | Decimal.D8 d' => 56%N :: cifras d'
  | Decimal.D9 d' => 57%N :: cifras d'
  end.

Definition str_de_int (z : Z) : str :=
  match Z.to_int z with
  | Decimal.Pos d => cifras d
  | Decimal.Neg d => 45%N :: cifras d
  end.

(** ** Data model *)

(** The dictionary built at lines 45-50 and 108-113.  The continent of a
    record loaded from a row that has no fourth field is [None]. *)
Record pais : Type := Registro {
  nombre : str;
  poblacion : Z;
  superficie : Z;
  continente : option str
}.

(** A record whose continent is a string. *)
Definition Pais (n : str) (p s : Z) (c : str) : pais := Registro n p s (Some c).

(** A row of [paises.csv] as [csv.reader] yields it: its fields, however
    many; a blank line is the row without fields. *)
Definition fila := list str.

(** A row of four fields. *)
Definition Fila (a b c d : str) : fila := [a; b; c; d].

(** The header the program writes (lines 32 and 59). *)
Definition cabecera : fila :=
  [de_ascii "nombre"; de_ascii "poblacion"; de_ascii "superficie";
   de_ascii "continente"].

(** What [paises.csv] holds, as the csv reader sees it: the rows stored, the
    first being the header, and the exception the reader raises at the end
    of them when the rest of the file cannot be read (undecodable bytes; a
    file that cannot be opened for reading has no rows and [OSError]).
    [csv.reader] is library code; the model starts from its rows. *)
Record contenido : Type := Contenido {
  filas_csv : list fila;
  ilegible : option excepcion
}.

(** [csv.field_size_limit()]: the reader raises on a longer field. *)
Definition field_size_limit : N := 131072.

Definition campo_excesivo (c : str) : bool :=
  N.ltb field_size_limit (N.of_nat (length c)).

(** A code point that UTF-8 cannot encode: a surrogate. *)
Definition sustituto (c : N) : bool := N.leb 55296 c && N.leb c 57343.

(** The row can be written with [encoding='utf-8']. *)
Definition codificable (f : fila) : bool :=
  forallb (fun campo => forallb (fun c => negb (sustituto c)) campo) f.

(** The row [csv.DictWriter] writes for a dictionary: numbers through
    [str], [None] as the empty field. *)
Definition fila_de_pais (p : pais) : fila :=
  [nombre p; str_de_int (poblacion p); str_de_int (superficie p);
   match continente p with Some c => c | None => [] end].

(** The rows written before the first one that cannot be encoded, if there
    is one. *)
Fixpoint antes_de_fallar (filas : list fila) : option (list fila) :=
  match filas with
  | [] => None
  | f :: resto =>
      if codificable f
      then match antes_de_fallar resto with
           | Some antes => Some (f :: antes)
           | None => None
           end
      else Some []
  end.

(** [a == b] on values that are strings or [None]. *)
Definition clave_eqb (a b : option str) : bool :=
  match a, b with
  | Some x, Some y => str_eqb x y
  | None, None => true
  | _, _ => false
  end.

(** What [estadisticas] accumulates in [continentes]: a Python [dict],
    kept in insertion order; its keys are the continents of the records. *)
Definition dict := list (option str * Z).

(** [d.get(k, defecto)] *)
Fixpoint dict_get (d : dict) (k : option str) (defecto : Z) : Z :=
  match d with
  | [] => defecto
  | (k', v) :: d' => if clave_eqb k k' then v else dict_get d' k defecto
  end.

(** [d[k] = v] *)
Fixpoint dict_set (d : dict) (k : option str) (v : Z) : dict :=
  match d with
  | [] => [(k, v)]
  | (k', v') :: d' =>
      if clave_eqb k k' then (k', v) :: d' else (k', v') :: dict_set d' k v
  end.

(** What the program prints, one constructor per [print] call of the
    modelled functions (the prompts of [input] are not recorded). *)
Inductive mensaje : Type :=
| NombreVacio            (* "Nombre vacío." *)
| ElPaisYaExiste         (* "El país ya existe." *)
| DatosInvalidos         (* "Datos inválidos." *)
| PaisAgregado           (* "País agregado." *)
| NoEncontrado           (* "No encontrado." *)
| DatosActualizados      (* "Datos actualizados." *)
| ValoresInvalidos       (* "Valores inválidos." *)
| ElPaisNoExiste         (* "El país ingresado no existe en el catálogo." *)
| NingunPaisEncontrado   (* "Ningún país encontrado." *)
| CatalogoVacio          (* "Catálogo vacío." *)
| Lista (l : list pais)  (* print of a list of dictionaries *)
| Linea (p : pais)       (* print of one dictionary *)
| MayorPoblacion (p : pais)
| MenorPoblacion (p : pais)
| PromedioPoblacion (x : flotante)
| PromedioSuperficie (x : flotante)
| CantidadPorContinente (d : dict).

(** ** The process and its environment *)

(** A reference to a dictionary object. *)
Definition ref := nat.

Record mundo : Type := Mundo {
  (** the dictionary objects, by address *)
  objetos : ref -> pais;
  (** the next unused address *)
  libre : ref;
  (** the list object bound to [paises_catalogo] in [menu] *)
  paises_catalogo : list ref;
  (** what [paises.csv] holds; [None] when the file does not exist *)
  archivo : option contenido;
  (** whether the file system lets the file be opened for writing and takes
      everything written to it *)
  escribible : bool;
  (** when it does not: [None] if opening is refused, otherwise what the
      file holds once a write has failed after the file was opened (and so
      emptied) *)
  interrumpida : option contenido;
  (** the lines still to be read from standard input *)
  entrada : list str;
  (** what has been printed *)
  salida : list mensaje
}.

Definition con_objetos (o : ref -> pais) (m : mundo) : mundo :=
  Mundo o (libre m) (paises_catalogo m) (archivo m) (escribible m)
        (interrumpida m) (entrada m) (salida m).
Definition con_libre (n : ref) (m : mundo) : mundo :=
  Mundo (objetos m) n (paises_catalogo m) (archivo m) (escribible m)
        (interrumpida m) (entrada m) (salida m).
Definition con_catalogo (c : list ref) (m : mundo) : mundo :=
  Mundo (objetos m) (libre m) c (archivo m) (escribible m)
        (interrumpida m) (entrada m) (salida m).
Definition con_archivo (a : option contenido) (m : mundo) : mundo :=
  Mundo (objetos m) (libre m) (paises_catalogo m) a (escribible m)
        (interrumpida m) (entrada m) (salida m).
Definition con_entrada (e : list str) (m : mundo) : mundo :=
  Mundo (objetos m) (libre m) (paises_catalogo m) (archivo m) (escribible m)
        (interrumpida m) e (salida m).
Definition con_salida (s : list mensaje) (m : mundo) : mundo :=
  Mundo (objetos m) (libre m) (paises_catalogo m) (archivo m) (escribible m)
        (interrumpida m) (entrada m) s.
(** The environment between two commands: what the user will type and
    whether the file can be written. *)
Definition con_entorno (e : list str) (w : bool) (m : mundo) : mundo :=
  Mundo (objetos m) (libre m) (paises_catalogo m) (archivo m) w
        (interrumpida m) e (salida m).

(** Store [p] at address [r]. *)
Definition poner (o : ref -> pais) (r : ref) (p : pais) : ref -> pais :=
  fun r' => if Nat.eqb r' r then p else o r'.

(** ** The monad of commands: state and exceptions *)

Definition M (A : Type) : Type := mundo -> resultado A * mundo.

Definition ret {A} (a : A) : M A := fun m => (Ok a, m).

Definition bind {A B} (c : M A) (k : A -> M B) : M B :=
  fun m =>
    match c m with
    | (Ok a, m') => k a m'
    | (Raise e, m') => (Raise e, m')
    end.

Definition raise {A} (e : excepcion) : M A := fun m => (Raise e, m).

Definition leer {A} (f : mundo -> A) : M A := fun m => (Ok (f m), m).

Definition modificar (f : mundo -> mundo) : M unit := fun m => (Ok tt, f m).

(** Lift the result of a pure builtin that may raise. *)
Definition lanzar {A} (r : resultado A) : M A := fun m => (r, m).

Declare Scope cmd_scope.
Delimit Scope cmd_scope with cmd.
Notation "x <- c ;; k" := (bind c (fun x => k))
  (at level 61, c at next level, right associativity) : cmd_scope.
Notation "c ;; k" := (bind c (fun _ => k))
  (at level 61, right associativity) : cmd_scope.
Local Open Scope cmd_scope.

(** [input(...)]: the next line of standard input. *)
Definition input : M str :=
  fun m =>
    match entrada m with
    | [] => (Raise EOFError, m)
    | l :: resto => (Ok l, con_entrada resto m)
    end.

(** [print(x)] *)
Definition print (x : mensaje) : M unit :=
  modificar (fun m => con_salida (salida m ++ [x]) m).

(** A dictionary literal: a fresh object. *)
Definition nuevo (p : pais) : M ref :=
  fun m => (Ok (libre m),
            con_libre (S (libre m)) (con_objetos (poner (objetos m) (libre m) p) m)).

(** [d['poblacion'] = v] and [d['superficie'] = v] on the object [r]. *)
Definition asignar_poblacion (r : ref) (v : Z) : M unit :=
  modificar (fun m =>
    let p := objetos m r in
    con_objetos (poner (objetos m) r
                   (Registro (nombre p) v (superficie p) (continente p))) m).

Definition asignar_superficie (r : ref) (v : Z) : M unit :=
  modificar (fun m =>
    let p := objetos m r in
    con_objetos (poner (objetos m) r
                   (Registro (nombre p) (poblacion p) v (continente p))) m).

(** ** Builtins on lists *)

Section Builtins.
Context {A : Type}.
Variable key : A -> Z.

(** [max(l, key=key)] scans left to right and replaces the current best only
    by a strictly greater element; [actual] is the best so far. *)
Fixpoint max_desde (actual : A) (l : list A) : A :=
  match l with
  | [] => actual
  | x :: l' => max_desde (if key actual <? key x then x else actual) l'
  end.

(** [min(l, key=key)], likewise with strictly smaller. *)
Fixpoint min_desde (actual : A) (l : list A) : A :=
  match l with
  | [] => actual
  | x :: l' => min_desde (if key x <? key actual then x else actual) l'
  end.

(** Insertion of [x] in front of a sorted list whose elements all came after
    [x] in the input: [x] passes only the elements strictly smaller. *)
Fixpoint insertar (x : A) (l : list A) : list A :=
  match l with
  | [] => [x]
  | y :: l' => if key y <? key x then y :: insertar x l' else x :: l
  end.

Definition ordenar (l : list A) : list A := fold_right insertar [] l.

(** [sorted(l, key=key, reverse=reverse)].  The builtin is a stable sort that
    compares keys with [<] only; with [reverse] it sorts the reversed list
    and reverses the outcome, which keeps equal keys in input order. *)
Definition sorted (reverse : bool) (l : list A) : list A :=
  if reverse then rev (ordenar (rev l)) else ordenar l.

End Builtins.

(** [sum(...)] and [len(...)] *)
Definition sum (l : list Z) : Z := fold_left Z.add l 0.
Definition len {A} (l : list A) : Z := Z.of_nat (length l).

(** [for x in l: c x] *)
Fixpoint para_cada {A} (l : list A) (c : A -> M unit) : M unit :=
  match l with
  | [] => ret tt
  | x :: l' => c x;; para_cada l' c
  end.

(** ** The program *)

Section Programa.
Context {U : Unicode}.

(** [with open(nombre_archivo, 'w', ...) as f:] and the writing of [filas]
    through a csv writer.  Opening empties the file.  When the file system
    takes the writes, the rows are written one after the other until one
    cannot be encoded, and what was written before stays in the file. *)
Definition escribir (filas : list fila) : M unit :=
  w <- leer escribible;;
  if w then
    match antes_de_fallar filas with
    | None => modificar (con_archivo (Some (Contenido filas None)))
    | Some antes =>
        modificar (con_archivo (Some (Contenido antes None)));;
        raise UnicodeEncodeError
    end
  else
    q <- leer interrumpida;;
    match q with
    | None => raise OSError
    | Some c => modificar (con_archivo (Some c));; raise OSError
    end.

(** [crear_sino_existe()], lines 24-32. *)
Definition crear_sino_existe : M unit :=
  a <- leer archivo;;
  match a with
  | Some _ => ret tt
  | None => escribir [cabecera]
  end.

(** [fila[k]] for the dictionary that [csv.DictReader] makes of [row]
    under [fieldnames]: the field in the column named [k], the last such
    column if several, [None] when the row is too short to have it, and
    [KeyError] when no column has that name. *)
Fixpoint valor_fila (fieldnames : fila) (row : fila) (k : str)
  : resultado (option str) :=
  match fieldnames with
  | [] => Raise KeyError
  | n :: ns =>
      match valor_fila ns (tl row) k with
      | Ok v => Ok v
      | Raise _ =>
          if str_eqb k n
          then Ok (match row with [] => None | x :: _ => Some x end)
          else Raise KeyError
      end
  end.

(** The test of line 44 on the dictionary [fila], evaluated left to right
    and stopping at the first operand that is false; [.isdigit()] on a field
    that is [None] raises [AttributeError].  When the test holds: the name
    and the two numerals that lines 46-48 look up again. *)
Definition fila_aceptada (fila : str -> resultado (option str))
  : resultado (option (str * str * str)) :=
  match fila (de_ascii "nombre") with
  | Raise e => Raise e
  | Ok None => Ok None
  | Ok (Some nombre) =>
      if vacia nombre then Ok None
      else
        match fila (de_ascii "poblacion") with
        | Raise e => Raise e
        | Ok None => Raise AttributeError
        | Ok (Some poblacion) =>
            if negb (isdigit poblacion) then Ok None
            else
              match fila (de_ascii "superficie") with
              | Raise e => Raise e
              | Ok None => Raise AttributeError
              | Ok (Some superficie) =>
                  if isdigit superficie
                  then Ok (Some (nombre, poblacion, superficie))
                  else Ok None
              end
        end
  end.

(** The loop of [leer_archivo], lines 43-50, over the rows still to read:
    [fieldnames] is the header, [fin] the failure of the reader at the end
    of the rows, if any. *)
Fixpoint leer_filas (fieldnames : fila) (filas : list fila)
    (fin : option excepcion) (paises_catalogo : list ref) : M (list ref) :=
  match filas with
  | [] =>
      match fin with
      | Some e => raise e
      | None => ret paises_catalogo
      end
  | row :: resto =>
      if existsb campo_excesivo row then raise CsvError
      else if vacia row then leer_filas fieldnames resto fin paises_catalogo
      else
        let fila := valor_fila fieldnames row in
        a <- lanzar (fila_aceptada fila);;
        match a with
        | Some (nombre, poblacion, superficie) =>
            p <- lanzar (int_ poblacion);;
            s <- lanzar (int_ superficie);;
            continente <- lanzar (fila (de_ascii "continente"));;
            r <- nuevo (Registro nombre p s continente);;
            leer_filas fieldnames resto fin (paises_catalogo ++ [r])
        | None => leer_filas fieldnames resto fin paises_catalogo
        end
  end.

(** [leer_archivo()], lines 34-51.  The first row is the header; a file
    without rows gives no dictionary at all. *)
Definition leer_archivo : M (list ref) :=
  crear_sino_existe;;
  a <- leer archivo;;
  match a with
  | None => raise OSError
  | Some c =>
      match filas_csv c with
      | [] =>
          match ilegible c with
          | Some e => raise e
          | None => ret []
          end
      | fieldnames :: filas =>
          if existsb campo_excesivo fieldnames then raise CsvError
          else leer_filas fieldnames filas (ilegible c) []
      end
  end.

(** [guardar_archivo(paises_catalogo)], lines 53-61. *)
Definition guardar_archivo (paises_catalogo : list ref) : M unit :=
  o <- leer objetos;;
  escribir (cabecera :: map (fun r => fila_de_pais (o r)) paises_catalogo).

(** [buscar_pais(paises_catalogo, nombre)], lines 63-69, reading the
    dictionaries in the heap [o]. *)
Definition buscar_pais (o : ref -> pais) (paises_catalogo : list ref)
    (nombre' : str) : list ref :=
  let nombre_norm := normalizar nombre' in
  filter (fun p => str_in nombre_norm (normalizar (nombre (o p))))
         paises_catalogo.

Definition clave_poblacion (o : ref -> pais) (p : ref) : Z := poblacion (o p).
Definition clave_superficie (o : ref -> pais) (p : ref) : Z := superficie (o p).

(** [agregar_pais(paises_catalogo)], lines 87-115. *)
Definition agregar_pais : M unit :=
  linea <- input;;
  let nombre := strip linea in
  if vacia nombre then print NombreVacio
  else
    o <- leer objetos;;
    cat <- leer paises_catalogo;;
    if negb (vacia (buscar_pais o cat nombre)) then print ElPaisYaExiste
    else
      poblacion <- input;;
      superficie <- input;;
      linea <- input;;
      let continente := strip linea in
      if negb (isdigit poblacion && isdigit superficie) || vacia continente
      then print DatosInvalidos
      else
        p <- lanzar (int_ poblacion);;
        s <- lanzar (int_ superficie);;
        r <- nuevo (Pais nombre p s continente);;
        modificar (fun m => con_catalogo (paises_catalogo m ++ [r]) m);;
        cat <- leer paises_catalogo;;
        guardar_archivo cat;;
        print PaisAgregado.

(** [actualizar_pais(paises_catalogo)], lines 117-136. *)
Definition actualizar_pais : M unit :=
  nombre <- input;;
  o <- leer objetos;;
  cat <- leer paises_catalogo;;
  let encontrados := buscar_pais o cat nombre in
  match encontrados with
  | [] => print NoEncontrado
  | pais :: _ =>
      poblacion <- input;;
      superficie <- input;;
      if isdigit poblacion && isdigit superficie then
        p <- lanzar (int_ poblacion);;
        asignar_poblacion pais p;;
        s <- lanzar (int_ superficie);;
        asignar_superficie pais s;;
        guardar_archivo cat;;
        print DatosActualizados
      else print ValoresInvalidos
  end.

(** Option 3 of [menu], lines 231-237. *)
Definition menu_buscar : M unit :=
  nombre <- input;;
  o <- leer objetos;;
  cat <- leer paises_catalogo;;
  let resultados := buscar_pais o cat nombre in
  if negb (vacia resultados) then print (Lista (map o resultados))
  else print ElPaisNoExiste.

(** The comprehensions of [filtrar_poblacion] and [filtrar_superficie]. *)
Definition filtrados_poblacion (o : ref -> pais) (paises_catalogo : list ref)
    (minimo maximo : Z) : list ref :=
  filter (fun p => (minimo <=? poblacion (o p)) && (poblacion (o p) <=? maximo))
         paises_catalogo.

Definition filtrados_superficie (o : ref -> pais) (paises_catalogo : list ref)
    (minimo maximo : Z) : list ref :=
  filter (fun p => (minimo <=? superficie (o p)) && (superficie (o p) <=? maximo))
         paises_catalogo.

(** [filtrar_poblacion(paises_catalogo)], lines 149-154. *)
Definition filtrar_poblacion : M unit :=
  linea <- input;;
  minimo <- lanzar (int_texto linea);;
  linea <- input;;
  maximo <- lanzar (int_texto linea);;
  o <- leer objetos;;
  cat <- leer paises_catalogo;;
  let filtrados := filtrados_poblacion o cat minimo maximo in
  print (if negb (vacia filtrados) then Lista (map o filtrados)
         else NingunPaisEncontrado).

(** [filtrar_superficie(paises_catalogo)], lines 156-161. *)
Definition filtrar_superficie : M unit :=
  linea <- input;;
  minimo <- lanzar (int_texto linea);;
  linea <- input;;
  maximo <- lanzar (int_texto linea);;
  o <- leer objetos;;
  cat <- leer paises_catalogo;;
  let filtrados := filtrados_superficie o cat minimo maximo in
  print (if negb (vacia filtrados) then Lista (map o filtrados)
         else NingunPaisEncontrado).

(** [ordenar_por_superficie(paises_catalogo, asc)], lines 173-180. *)
Definition ordenar_por_superficie (asc : bool) : M unit :=
  o <- leer objetos;;
  cat <- leer paises_catalogo;;
  para_cada (sorted (clave_superficie o) (negb asc) cat)
            (fun p => print (Linea (o p))).

(** The body of the loop of lines 198-199. *)
Definition contar (o : ref -> pais) (continentes : dict) (p : ref) : dict :=
  dict_set continentes (continente (o p))
           (dict_get continentes (continente (o p)) 0 + 1).

(** The loop of lines 197-199. *)
Definition contar_continentes (o : ref -> pais) (paises_catalogo : list ref)
  : dict :=
  fold_left (contar o) paises_catalogo [].

(** [estadisticas(paises_catalogo)], lines 182-204. *)
Definition estadisticas : M unit :=
  o <- leer objetos;;
  cat <- leer paises_catalogo;;
  match cat with
  | [] => print CatalogoVacio
  | primero :: resto =>
      let mayor := max_desde (clave_poblacion o) primero resto in
      let menor := min_desde (clave_poblacion o) primero resto in
      prom_pob <- lanzar (truediv (sum (map (fun p => poblacion (o p)) cat))
                                  (len cat));;
      prom_sup <- lanzar (truediv (sum (map (fun p => superficie (o p)) cat))
                                  (len cat));;
      let continentes := contar_continentes o cat in
      print (MayorPoblacion (o mayor));;
      print (MenorPoblacion (o menor));;
      print (PromedioPoblacion prom_pob);;
      print (PromedioSuperficie prom_sup);;
      print (CantidadPorContinente continentes)
  end.

(** The first lines of [menu]: [paises_catalogo = leer_archivo()]. *)
Definition menu_inicio : M unit :=
  cat <- leer_archivo;;
  modificar (con_catalogo cat).

End Programa.

(** ** The other commands of the menu *)

(** [a < b] on strings: code point by code point, a proper prefix first. *)
Fixpoint str_ltb (a b : str) : bool :=
  match a, b with
  | _, [] => false
  | [], _ :: _ => true
  | x :: a', y :: b' => N.ltb x y || (N.eqb x y && str_ltb a' b')
  end.

Section BuiltinsPorClave.
Context {A K : Type}.
Variable ltb : K -> K -> bool.
Variable key : A -> K.

(** [insertar] and [sorted] for keys of any type compared with [<]. *)
Fixpoint insertar_por (x : A) (l : list A) : list A :=
  match l with
  | [] => [x]
  | y :: l' => if ltb (key y) (key x) then y :: insertar_por x l' else x :: l
  end.

Definition ordenar_por (l : list A) : list A := fold_right insertar_por [] l.

Definition sorted_por (reverse : bool) (l : list A) : list A :=
  if reverse then rev (ordenar_por (rev l)) else ordenar_por l.

End BuiltinsPorClave.

(** [print(p)] for a dictionary of the catalogue. *)
Definition imprimir (p : ref) : M unit :=
  o <- leer objetos;;
  print (Linea (o p)).

Section OtrosComandos.
Context {U : Unicode}.

Definition clave_nombre (o : ref -> pais) (p : ref) : str := nombre (o p).

(** [mostrar_catalogo(paises_catalogo)], lines 138-141. *)
Definition mostrar_catalogo : M unit :=
  cat <- leer paises_catalogo;;
  para_cada cat imprimir.

(** The comprehension of [filtrar_continente]: [normalizar] calls [strip]
    on its argument, which a continent that is [None] does not have. *)
Fixpoint filtrados_continente (o : ref -> pais) (paises_catalogo : list ref)
    (cont : str) : resultado (list ref) :=
  match paises_catalogo with
  | [] => Ok []
  | p :: resto =>
      match continente (o p) with
      | None => Raise AttributeError
      | Some c =>
          match filtrados_continente o resto cont with
          | Ok filtrados =>
              Ok (if str_eqb (normalizar cont) (normalizar c)
                  then p :: filtrados else filtrados)
          | Raise e => Raise e
          end
      end
  end.

(** [filtrar_continente(paises_catalogo)], lines 143-147. *)
Definition filtrar_continente : M unit :=
  cont <- input;;
  o <- leer objetos;;
  cat <- leer paises_catalogo;;
  filtrados <- lanzar (filtrados_continente o cat cont);;
  print (if negb (vacia filtrados) then Lista (map o filtrados)
         else NingunPaisEncontrado).

(** [ordenar_por_nombre(paises_catalogo)], lines 163-166. *)
Definition ordenar_por_nombre : M unit :=
  o <- leer objetos;;
  cat <- leer paises_catalogo;;
  para_cada (sorted_por str_ltb (clave_nombre o) false cat) imprimir.

(** [ordenar_por_poblacion(paises_catalogo)], lines 168-171. *)
Definition ordenar_por_poblacion : M unit :=
  o <- leer objetos;;
  cat <- leer paises_catalogo;;
  para_cada (sorted (clave_poblacion o) false cat) imprimir.

(** The commands that only read the catalogue, with the arguments the menu
    passes them. *)
Inductive consulta : Type :=
| Mostrar
| Buscar
| FiltrarContinente
| FiltrarPoblacion
| FiltrarSuperficie
| OrdenarNombre
| OrdenarPoblacion
| OrdenarSuperficie (asc : bool)
| Estadisticas.

(** A command of the menu. *)
Inductive comando : Type :=
| Agregar
| Actualizar
| Consultar (q : consulta).

Definition ejecutar_consulta (q : consulta) : M unit :=
  match q with
  | Mostrar => mostrar_catalogo
  | Buscar => menu_buscar
  | FiltrarContinente => filtrar_continente
  | FiltrarPoblacion => filtrar_poblacion
  | FiltrarSuperficie => filtrar_superficie
  | OrdenarNombre => ordenar_por_nombre
  | OrdenarPoblacion => ordenar_por_poblacion
  | OrdenarSuperficie asc => ordenar_por_superficie asc
  | Estadisticas => estadisticas
  end.

Definition ejecutar (c : comando) : M unit :=
  match c with
  | Agregar => agregar_pais
  | Actualizar => actualizar_pais
  | Consultar q => ejecutar_consulta q
  end.

(** The states of a session: from [m], any number of commands that return
    normally, each with what the user types and whether the file can be
    written at that moment. *)
Inductive sesion (m : mundo) : mundo -> Prop :=
| sesion_nada : sesion m m
| sesion_comando m1 m2 c e w :
    sesion m m1 ->
    ejecutar c (con_entorno e w m1) = (Ok tt, m2) ->
    sesion m m2.

(** What loading does with one stored row under the program's own header,
    by the fields the row has: skipped ([Ok None]), loaded as a record, or
    the exception it ends with. *)
Definition destino_fila (row : fila) : resultado (option pais) :=
  if existsb campo_excesivo row then Raise CsvError
  else
    match row with
    | [] => Ok None
    | n :: resto =>
        if vacia n then Ok None
        else
          match resto with
          | [] => Raise AttributeError
          | p :: resto' =>
              if negb (isdigit p) then Ok None
              else
                match resto' with
                | [] => Raise AttributeError
                | s :: resto'' =>
                    if negb (isdigit s) then Ok None
                    else
                      match int_ p, int_ s with
                      | Ok vp, Ok vs =>
                          Ok (Some (Registro n vp vs (hd_error resto'')))
                      | _, _ => Raise ValueError
                      end
                end
          end
    end.

(** The records of the rows in order, or the exception of the first row
    that has one, or the failure [fin] of the reader after the rows. *)
Fixpoint destino_filas (filas : list fila) (fin : option excepcion)
  : resultado (list pais) :=
  match filas with
  | [] => match fin with Some e => Raise e | None => Ok [] end
  | row :: resto =>
      match destino_fila row with
      | Raise e => Raise e
      | Ok x =>
          match destino_filas resto fin with
          | Raise e => Raise e
          | Ok ps => Ok (match x with Some p => p :: ps | None => ps end)
          end
      end
  end.

(** The ASCII digits are digits, with their values. *)
Definition digitos_ascii : Prop :=
  forall c, (48 <= c <= 57)%N ->
            digito c = true /\ decimal c = Some (c - 48)%N.

(** The numeral of [z] is within the digit limit of [int]. *)
Definition cabe (z : Z) : Prop :=
  int_max_str_digits = 0%nat
  \/ (length (str_de_int z) <= int_max_str_digits)%nat.

(** A record that [guardar_archivo] and [leer_archivo] carry through: a
    name, numbers that are not negative and whose numerals [int] accepts, a
    continent that is a string, no character that UTF-8 cannot encode and no
    field beyond the limit of the csv reader. *)
Definition recuperable (p : pais) : Prop :=
  nombre p <> [] /\ 0 <= poblacion p /\ 0 <= superficie p
  /\ cabe (poblacion p) /\ cabe (superficie p)
  /\ continente p <> None
  /\ codificable (fila_de_pais p) = true
  /\ existsb campo_excesivo (fila_de_pais p) = false.

End OtrosComandos.

(** ** The Latin-1 fragment of the character database

    An instance of the interface for running the program on concrete text.
    It agrees with CPython 3.11 (Unicode 14) on every string whose code
    points are below 256; the examples below use such strings only. *)

Module Latin1.

Local Open Scope N_scope.

Definition isspace (c : N) : bool :=
  ((9 <=? c) && (c <=? 13)) || ((28 <=? c) && (c <=? 32))
  || (c =? 133) || (c =? 160).

Definition lower1 (c : N) : N :=
  if ((65 <=? c) && (c <=? 90))
     || ((192 <=? c) && (c <=? 222) && negb (c =? 215))
  then c + 32 else c.

(** Canonical decomposition of one code point. *)
Definition descomponer (c : N) : str :=
  match c with
  | 192 => [65; 768]
  | 193 => [65; 769]
  | 194 => [65; 770]
  | 195 => [65; 771]
  | 196 => [65; 776]
  | 197 => [65; 778]
  | 199 => [67; 807]
  | 200 => [69; 768]
  | 201 => [69; 769]
  | 202 => [69; 770]
  | 203 => [69; 776]
  | 204 => [73; 768]
  | 205 => [73; 769]
  | 206 => [73; 770]
  | 207 => [73; 776]
  | 209 => [78; 771]
  | 210 => [79; 768]
  | 211 => [79; 769]
  | 212 => [79; 770]
  | 213 => [79; 771]
  | 214 => [79; 776]
  | 217 => [85; 768]
  | 218 => [85; 769]
  | 219 => [85; 770]
  | 220 => [85; 776]
  | 221 => [89; 769]
  | 224 => [97; 768]
  | 225 => [97; 769]
  | 226 => [97; 770]
  | 227 => [97; 771]
  | 228 => [97; 776]
  | 229 => [97; 778]
  | 231 => [99; 807]
  | 232 => [101; 768]
  | 233 => [101; 769]
  | 234 => [101; 770]
  | 235 => [101; 776]
  | 236 => [105; 768]
  | 237 => [105; 769]
  | 238 => [105; 770]
  | 239 => [105; 776]
  | 241 => [110; 771]
  | 242 => [111; 768]
  | 243 => [111; 769]
  | 244 => [111; 770]
  | 245 => [111; 771]
  | 246 => [111; 776]
  | 249 => [117; 768]
  | 250 => [117; 769]
  | 251 => [117; 770]
  | 252 => [117; 776]
  | 253 => [121; 769]
  | 255 => [121; 776]
  | _ => [c]
  end.

(** The combining diacritical marks U+0300..U+036F. *)
Definition category_Mn (c : N) : bool := (768 <=? c) && (c <=? 879).

(** ASCII digits and the superscripts U+00B2, U+00B3, U+00B9. *)
Definition digito (c : N) : bool :=
  ((48 <=? c) && (c <=? 57)) || (c =? 178) || (c =? 179) || (c =? 185).

Definition decimal (c : N) : option N :=
  if (48 <=? c) && (c <=? 57) then Some (c - 48) else None.

Definition tablas : Unicode :=
  Build_Unicode isspace (map lower1) (flat_map descomponer) category_Mn
                digito decimal 4300.

End Latin1.

(** ** Properties of catalogues *)

Section Propiedades.
Context {U : Unicode}.

(** The substring test of [buscar_pais] on one record. *)
Definition coincide (o : ref -> pais) (consulta : str) (r : ref) : bool :=
  str_in (normalizar consulta) (normalizar (nombre (o r))).

(** The canonical forms of the names of a catalogue, in order. *)
Definition formas (o : ref -> pais) (cat : list ref) : list str :=
  map (fun r => normalizar (nombre (o r))) cat.

(** No two records have names with the same canonical form. *)
Definition sin_duplicados (m : mundo) : Prop :=
  NoDup (formas (objetos m) (paises_catalogo m)).

(** The validation of [agregar_pais]. *)
Definition valido (p : pais) : Prop :=
  nombre p <> [] /\ 0 <= poblacion p /\ 0 <= superficie p
  /\ exists c, continente p = Some c /\ c <> [].

(** What [leer_archivo] guarantees of a record. *)
Definition valido_al_cargar (p : pais) : Prop :=
  nombre p <> [] /\ 0 <= poblacion p /\ 0 <= superficie p.

(** The test of line 44 on a row under the header [fieldnames]: the row has
    a name that is not empty and a population and an area that pass
    [isdigit]. *)
Definition aceptada (fieldnames : fila) (row : fila) : bool :=
  match valor_fila fieldnames row (de_ascii "nombre"),
        valor_fila fieldnames row (de_ascii "poblacion"),
        valor_fila fieldnames row (de_ascii "superficie") with
  | Ok (Some n), Ok (Some p), Ok (Some s) =>
      negb (vacia n) && isdigit p && isdigit s
  | _, _, _ => false
  end.

(** The record of lines 45-50 for a row: the name and the continent as
    stored, the numbers converted by [int]. *)
Definition cargada (fieldnames : fila) (row : fila) (p : pais) : Prop :=
  valor_fila fieldnames row (de_ascii "nombre") = Ok (Some (nombre p))
  /\ (exists t, valor_fila fieldnames row (de_ascii "poblacion") = Ok (Some t)
                /\ int_ t = Ok (poblacion p))
  /\ (exists t, valor_fila fieldnames row (de_ascii "superficie") = Ok (Some t)
                /\ int_ t = Ok (superficie p))
  /\ valor_fila fieldnames row (de_ascii "continente") = Ok (continente p).

(** The header of the file that loading reads and the rows under it: those
    of the file of [m], or of the file that loading creates when there is
    none. *)
Definition cabecera_de (m : mundo) : fila :=
  match archivo m with
  | Some c => hd [] (filas_csv c)
  | None => cabecera
  end.

Definition filas_de (m : mundo) : list fila :=
  match archivo m with
  | Some c => tl (filas_csv c)
  | None => []
  end.

(** The full snapshot of a catalogue, as [guardar_archivo] writes it: the
    header and one row per record. *)
Definition instantanea (m : mundo) : contenido :=
  Contenido
    (cabecera :: map (fun r => fila_de_pais (objetos m r)) (paises_catalogo m))
    None.

(** The messages with which [agregar_pais] and [actualizar_pais] reject. *)
Definition rechazo (x : mensaje) : Prop :=
  x = NombreVacio \/ x = ElPaisYaExiste \/ x = DatosInvalidos
  \/ x = NoEncontrado \/ x = ValoresInvalidos.

(** The memory of the process and the file are those of [m]. *)
Definition intacto (m m' : mundo) : Prop :=
  objetos m' = objetos m /\ libre m' = libre m
  /\ paises_catalogo m' = paises_catalogo m /\ archivo m' = archivo m.

(** What a command may have done to the memory: nothing; appended a fresh
    valid record whose normalized name occurs in no normalized name of the
    catalogue; or given a record of the catalogue a new population and
    area. *)
Inductive efecto (m m' : mundo) : Prop :=
| ef_nada :
    objetos m' = objetos m -> libre m' = libre m ->
    paises_catalogo m' = paises_catalogo m -> efecto m m'
| ef_alta p :
    valido p ->
    Forall (fun r => ~ contiene (normalizar (nombre (objetos m r)))
                                (normalizar (nombre p)))
           (paises_catalogo m) ->
    objetos m' = poner (objetos m) (libre m) p ->
    libre m' = S (libre m) ->
    paises_catalogo m' = paises_catalogo m ++ [libre m] -> efecto m m'
| ef_cambio r p s :
    In r (paises_catalogo m) -> 0 <= p -> 0 <= s ->
    objetos m' r
    = Registro (nombre (objetos m r)) p s (continente (objetos m r)) ->
    (forall r', r' <> r -> objetos m' r' = objetos m r') ->
    libre m' = libre m ->
    paises_catalogo m' = paises_catalogo m -> efecto m m'.

(** The file holds the rows of the snapshot that come before one that
    cannot be encoded, and nothing after them. *)
Definition escrito_en_parte (m : mundo) : Prop :=
  exists antes f resto,
    filas_csv (instantanea m) = antes ++ f :: resto
    /\ codificable f = false
    /\ archivo m = Some (Contenido antes None).

(** The file after a write that the file system refused: as it was when
    the file could not be opened, or whatever the interrupted write left. *)
Definition tras_rechazo (m : mundo) : option contenido :=
  match interrumpida m with
  | Some c => Some c
  | None => archivo m
  end.

(** [m'] is [m] after [actualizar_pais] has assigned both numbers typed to
    a record of the catalogue. *)
Definition actualizado (m m' : mundo) : Prop :=
  exists consulta pob sup e3 r,
    entrada m = consulta :: pob :: sup :: e3
    /\ In r (paises_catalogo m)
    /\ int_ pob = Ok (poblacion (objetos m' r))
    /\ int_ sup = Ok (superficie (objetos m' r)).

(** Every reference of the catalogue is allocated. *)
Definition asignadas (m : mundo) : Prop :=
  Forall (fun r => (r < libre m)%nat) (paises_catalogo m).

End Propiedades.

Section Orden.
Context {A : Type}.
Variable key : A -> Z.

(** [r] is the first element of [l] with the greatest key. *)
Definition primero_maximo (l : list A) (r : A) : Prop :=
  exists pre post, l = pre ++ r :: post
    /\ Forall (fun x => key x < key r) pre
    /\ Forall (fun x => key x <= key r) post.

(** [r] is the first element of [l] with the least key. *)
Definition primero_minimo (l : list A) (r : A) : Prop :=
  exists pre post, l = pre ++ r :: post
    /\ Forall (fun x => key r < key x) pre
    /\ Forall (fun x => key r <= key x) post.

(** The elements of [l] with key [k], in the order of [l]. *)
Definition con_clave (k : Z) (l : list A) : list A :=
  filter (fun x => key x =? k) l.

End Orden.

(** The number of records of [cat] whose continent is exactly [k]. *)
Definition cuenta (o : ref -> pais) (cat : list ref) (k : option str) : Z :=
  len (filter (fun p => clave_eqb (continente (o p)) k) cat).

(** The world after [agregar_pais] has appended the record, before saving. *)
Definition tras_agregar (m : mundo) (resto : list str) (p : pais) : mundo :=
  con_catalogo (paises_catalogo m ++ [libre m])
    (con_libre (S (libre m))
       (con_objetos (poner (objetos m) (libre m) p) (con_entrada resto m))).

(** The world after [actualizar_pais] has assigned both fields of [r]. *)
Definition tras_actualizar (m : mundo) (resto : list str) (r : ref) (p s : Z)
  : mundo :=
  let o1 := poner (objetos m) r
              (Registro (nombre (objetos m r)) p (superficie (objetos m r))
                        (continente (objetos m r))) in
  con_objetos
    (poner o1 r (Registro (nombre (o1 r)) (poblacion (o1 r)) s
                          (continente (o1 r))))
    (con_entrada resto m).

(** The end of both commands that change the catalogue: save, then print. *)
Definition guardar_y_decir (x : mensaje) (m : mundo) : resultado unit * mundo :=
  match guardar_archivo (paises_catalogo m) m with
  | (Ok _, m') => (Ok tt, con_salida (salida m' ++ [x]) m')
  | (Raise e, m') => (Raise e, m')
  end.

(** Every record of the catalogue can be written with [encoding='utf-8']:
    no name and no continent holds a surrogate. *)
Definition codificables (m : mundo) : Prop :=
  Forall (fun r => codificable (fila_de_pais (objetos m r)) = true)
         (paises_catalogo m).

(** ** Concrete catalogues *)

Definition pais_vacio : pais := Pais [] 0 0 [].

(** The world of a process whose catalogue holds the records [ps] (objects
    0, 1, ...), already saved, with [ent] on standard input. *)
Definition mundo_de (ps : list pais) (ent : list str) (w : bool) : mundo :=
  Mundo (fun r => nth r ps pais_vacio) (length ps) (seq 0%nat (length ps))
        (Some (Contenido (cabecera :: map fila_de_pais ps) None)) w None ent [].

(** The world of a process that has not loaded anything yet; [a] are the
    rows of the file after the program's header, if the file exists. *)
Definition mundo_inicial (a : option (list fila)) (w : bool) : mundo :=
  Mundo (fun _ => pais_vacio) 0%nat []
        (option_map (fun filas => Contenido (cabecera :: filas) None) a)
        w None [] [].

(** The records of the catalogue, in order. *)
Definition registros (m : mundo) : list pais :=
  map (objetos m) (paises_catalogo m).

(** "Perú" *)
Definition Peru' : str := de_ascii "Per" ++ [250%N].

(** ** Examples on concrete text *)

Section Ejemplos.
#[local] Existing Instance Latin1.tablas.

Example normalizar_Peru : normalizar Peru' = de_ascii "peru".
Proof. reflexivity. Qed.

Example normalizar_espacios :
  normalizar (de_ascii "  Costa   Rica ") = de_ascii "costa rica".
Proof. reflexivity. Qed.

Example isdigit_superindice :
  isdigit [178%N] = true /\ int_ [178%N] = Raise ValueError.
Proof. split; reflexivity. Qed.

Example int_120 : int_ (de_ascii "0120") = Ok 120.
Proof. reflexivity. Qed.

Example str_de_int_120 : str_de_int 120 = de_ascii "120".
Proof. reflexivity. Qed.

Example truediv_60_3 : truediv 60 3 = Ok (inject_Z 20).
Proof. reflexivity. Qed.

Example truediv_desborda : truediv (2 ^ 1024) 1 = Raise OverflowError.
Proof. vm_compute. reflexivity. Qed.

Example agregar_Chile :
  let m := mundo_de [] [de_ascii "Chile"; de_ascii "19"; de_ascii "756"; de_ascii "America"] true in
  let m' := snd (agregar_pais m) in
  fst (agregar_pais m) = Ok tt
  /\ registros m' = [Pais (de_ascii "Chile") 19 756 (de_ascii "America")]
  /\ archivo m'
     = Some (Contenido
               [cabecera;
                Fila (de_ascii "Chile") (de_ascii "19") (de_ascii "756")
                     (de_ascii "America")] None)
  /\ salida m' = [PaisAgregado].
Proof. vm_compute. repeat split. Qed.

End Ejemplos.

(** ** Substrings *)

Lemma prefijo_spec (a b : str) :
  prefijo a b = true <-> exists post, b = a ++ post.
Proof.
  revert b; induction a as [|x a IH]; intros b; simpl.
  - split; [intros _; now exists b | reflexivity].
  - destruct b as [|y b].
    + split; [discriminate | intros [post H]; discriminate].
    + rewrite andb_true_iff, N.eqb_eq, IH. split.
      * intros [-> [post ->]]. now exists post.
      * intros [post H]. injection H as -> ->.
        split; [reflexivity | now exists post].
Qed.

Lemma str_in_spec (a b : str) :
  str_in a b = true <-> exists pre post, b = pre ++ a ++ post.
Proof.
  induction b as [|y b IH]; simpl.
  - rewrite orb_false_r, prefijo_spec. split.
    + intros [post H]. now exists [], post.
    + intros [pre [post H]]. destruct pre; simpl in H; [|discriminate].
      now exists post.
  - rewrite orb_true_iff, prefijo_spec, IH. split.
    + intros [[post H] | [pre [post H]]].
      * now exists [], post.
      * exists (y :: pre), post. simpl. now rewrite H.
    + intros [pre [post H]]. destruct pre as [|z pre]; simpl in H.
      * left. now exists post.
      * right. injection H as _ H. now exists pre, post.
Qed.

Lemma str_in_refl (a : str) : str_in a a = true.
Proof. apply str_in_spec. exists [], []. simpl. now rewrite app_nil_r. Qed.

Lemma str_in_nil (b : str) : str_in [] b = true.
Proof. destruct b; reflexivity. Qed.

Lemma vacia_nil {A} (l : list A) : vacia l = true <-> l = [].
Proof. destruct l; simpl; split; congruence. Qed.

Lemma vacia_false {A} (l : list A) : vacia l = false <-> l <> [].
Proof. destruct l; simpl; split; congruence. Qed.

(** ** The monad, step by step *)

Lemma bind_ok {A B} (c : M A) (k : A -> M B) m a m' :
  c m = (Ok a, m') -> bind c k m = k a m'.
Proof. intros H. unfold bind. now rewrite H. Qed.

Lemma bind_raise {A B} (c : M A) (k : A -> M B) m e m' :
  c m = (Raise e, m') -> bind c k m = (Raise e, m').
Proof. intros H. unfold bind. now rewrite H. Qed.

Lemma filter_todos {A} (f : A -> bool) (l : list A) :
  (forall x, In x l -> f x = true) -> filter f l = l.
Proof.
  induction l as [|x l IH]; simpl; intros H; [reflexivity|].
  rewrite H by now left. f_equal. apply IH. intros; apply H; now right.
Qed.

Lemma filter_ninguno {A} (f : A -> bool) (l : list A) :
  (forall x, In x l -> f x = false) -> filter f l = [].
Proof.
  induction l as [|x l IH]; simpl; intros H; [reflexivity|].
  rewrite H by now left. apply IH. intros; apply H; now right.
Qed.

(** ** Search *)

Lemma normalizar_vacio {U : Unicode} :
  lower [] = [] -> NFD [] = [] -> normalizar [] = [].
Proof.
  intros Hl Hn. unfold normalizar, strip. simpl. rewrite Hl. simpl.
  now rewrite Hn.
Qed.

Lemma menu_buscar_intacto {U : Unicode} (m : mundo) :
  intacto m (snd (menu_buscar m)).
Proof.
  unfold menu_buscar, bind, input, leer, print, modificar, intacto.
  destruct (entrada m) as [|l resto]; simpl; [tauto|].
  destruct (vacia _); simpl; tauto.
Qed.

(** C8.  For every catalogue and query, [buscar_pais] returns exactly the
    records whose normalized name contains the normalized query as a
    contiguous run, as the filter of the catalogue (so in catalogue order);
    searching from the menu changes neither the objects, the catalogue nor
    the file; and, the lower-casing and the decomposition of the empty string
    being empty, the empty query returns the whole catalogue. *)
Theorem buscar_pais_exacta {U : Unicode}
    (o : ref -> pais) (cat : list ref) (consulta : str) :
  (forall r, In r (buscar_pais o cat consulta) <->
             In r cat /\ exists pre post,
               normalizar (nombre (o r)) = pre ++ normalizar consulta ++ post)
  /\ buscar_pais o cat consulta = filter (coincide o consulta) cat
  /\ (forall m, intacto m (snd (menu_buscar m)))
  /\ (lower [] = [] -> NFD [] = [] -> buscar_pais o cat [] = cat).
Proof.
  split; [|split; [|split]].
  - intros r. unfold buscar_pais. rewrite filter_In, str_in_spec. reflexivity.
  - reflexivity.
  - apply menu_buscar_intacto.
  - intros Hl Hn. unfold buscar_pais. rewrite (normalizar_vacio Hl Hn).
    apply filter_todos. intros x _. apply str_in_nil.
Qed.

(** The empty query on a catalogue of three countries. *)
Lemma buscar_pais_exacta_witness :
  let ps := [Pais (de_ascii "Chile") 19 756 (de_ascii "America");
             Pais Peru' 33 1285 (de_ascii "America");
             Pais (de_ascii "India") 1400 3287 (de_ascii "Asia")] in
  @buscar_pais Latin1.tablas (fun r => nth r ps pais_vacio) [0; 1; 2]%nat []
  = [0; 1; 2]%nat.
Proof.
  intros ps.
  apply (proj2 (proj2 (proj2
    (@buscar_pais_exacta Latin1.tablas (fun r => nth r ps pais_vacio)
       [0; 1; 2]%nat [])))); reflexivity.
Defined.

(** ** Range filters *)

Lemma filtrados_poblacion_vacio (o : ref -> pais) (cat : list ref)
    (minimo maximo : Z) :
  maximo < minimo -> filtrados_poblacion o cat minimo maximo = [].
Proof.
  intros H. apply filter_ninguno. intros x _.
  apply andb_false_iff. rewrite !Z.leb_gt. lia.
Qed.

Lemma filtrados_superficie_vacio (o : ref -> pais) (cat : list ref)
    (minimo maximo : Z) :
  maximo < minimo -> filtrados_superficie o cat minimo maximo = [].
Proof.
  intros H. apply filter_ninguno. intros x _.
  apply andb_false_iff. rewrite !Z.leb_gt. lia.
Qed.

Lemma filtrar_poblacion_ok {U : Unicode} (m : mundo) (l1 l2 : str)
    (e : list str) (minimo maximo : Z) :
  entrada m = l1 :: l2 :: e ->
  int_texto l1 = Ok minimo -> int_texto l2 = Ok maximo ->
  filtrar_poblacion m
  = (Ok tt,
     con_salida
       (salida m
        ++ [let f := filtrados_poblacion (objetos m) (paises_catalogo m)
                       minimo maximo in
            if negb (vacia f) then Lista (map (objetos m) f)
            else NingunPaisEncontrado])
       (con_entrada e m)).
Proof.
  intros He H1 H2.
  unfold filtrar_poblacion, bind, input, lanzar, leer, print, modificar.
  rewrite He. cbn. rewrite H1. cbn. rewrite H2. reflexivity.
Qed.

Lemma filtrar_superficie_ok {U : Unicode} (m : mundo) (l1 l2 : str)
    (e : list str) (minimo maximo : Z) :
  entrada m = l1 :: l2 :: e ->
  int_texto l1 = Ok minimo -> int_texto l2 = Ok maximo ->
  filtrar_superficie m
  = (Ok tt,
     con_salida
       (salida m
        ++ [let f := filtrados_superficie (objetos m) (paises_catalogo m)
                       minimo maximo in
            if negb (vacia f) then Lista (map (objetos m) f)
            else NingunPaisEncontrado])
       (con_entrada e m)).
Proof.
  intros He H1 H2.
  unfold filtrar_superficie, bind, input, lanzar, leer, print, modificar.
  rewrite He. cbn. rewrite H1. cbn. rewrite H2. reflexivity.
Qed.

(** C9.  The user having typed two lines that [int] converts to [minimo] and
    [maximo], each range filter consumes the two lines and prints, as one
    list in catalogue order, exactly the records whose field lies between
    the bounds, both bounds included, or that no country was found when
    there is none; it does not raise.  On an inverted range
    ([maximo < minimo]) nothing is selected and the command prints that no
    country was found. *)
Theorem filtros_por_rango {U : Unicode} (m : mundo) (l1 l2 : str)
    (e : list str) (minimo maximo : Z) :
  entrada m = l1 :: l2 :: e ->
  int_texto l1 = Ok minimo -> int_texto l2 = Ok maximo ->
  let o := objetos m in
  let cat := paises_catalogo m in
  let imprime (f : list ref) : resultado unit * mundo :=
    (Ok tt,
     con_salida
       (salida m ++ [if negb (vacia f) then Lista (map o f)
                     else NingunPaisEncontrado])
       (con_entrada e m)) in
  filtrar_poblacion m
  = imprime (filter (fun r => (minimo <=? poblacion (o r))
                              && (poblacion (o r) <=? maximo)) cat)
  /\ filtrar_superficie m
     = imprime (filter (fun r => (minimo <=? superficie (o r))
                                 && (superficie (o r) <=? maximo)) cat)
  /\ (forall r, In r (filtrados_poblacion o cat minimo maximo) <->
                In r cat /\ minimo <= poblacion (o r) <= maximo)
  /\ (forall r, In r (filtrados_superficie o cat minimo maximo) <->
                In r cat /\ minimo <= superficie (o r) <= maximo)
  /\ (maximo < minimo ->
      filtrados_poblacion o cat minimo maximo = []
      /\ filtrados_superficie o cat minimo maximo = []
      /\ filtrar_poblacion m
         = (Ok tt, con_salida (salida m ++ [NingunPaisEncontrado])
                              (con_entrada e m))
      /\ filtrar_superficie m
         = (Ok tt, con_salida (salida m ++ [NingunPaisEncontrado])
                              (con_entrada e m))).
Proof.
  intros He H1 H2 o cat imprime.
  split; [|split; [|split; [|split]]].
  - apply (filtrar_poblacion_ok m l1 l2 e minimo maximo He H1 H2).
  - apply (filtrar_superficie_ok m l1 l2 e minimo maximo He H1 H2).
  - intros r. unfold filtrados_poblacion.
    rewrite filter_In, andb_true_iff, !Z.leb_le. tauto.
  - intros r. unfold filtrados_superficie.
    rewrite filter_In, andb_true_iff, !Z.leb_le. tauto.
  - intros Hinv.
    split; [now apply filtrados_poblacion_vacio|].
    split; [now apply filtrados_superficie_vacio|].
    rewrite (filtrar_poblacion_ok m l1 l2 e minimo maximo He H1 H2),
            (filtrar_superficie_ok m l1 l2 e minimo maximo He H1 H2).
    cbv zeta. fold o cat.
    rewrite (filtrados_poblacion_vacio o cat minimo maximo Hinv),
            (filtrados_superficie_vacio o cat minimo maximo Hinv).
    split; reflexivity.
Qed.

(** The inverted range of the specification, 100 to 50, typed at the
    prompts of the population filter. *)
Lemma filtros_por_rango_witness :
  let ps := [Pais (de_ascii "A") 60 10 (de_ascii "X");
             Pais (de_ascii "B") 100 30 (de_ascii "X")] in
  let m := mundo_de ps [de_ascii "100"; de_ascii "50"] true in
  @filtrar_poblacion Latin1.tablas m
  = (Ok tt, con_salida (salida m ++ [NingunPaisEncontrado]) (con_entrada [] m)).
Proof.
  intros ps m.
  destruct (@filtros_por_rango Latin1.tablas m (de_ascii "100") (de_ascii "50")
              [] 100 50 eq_refl eq_refl eq_refl)
    as (_ & _ & _ & _ & H).
  apply H. reflexivity.
Defined.

(** ** Sorting *)

Section OrdenarCorrecto.
Context {A : Type}.
Variable key : A -> Z.

Lemma insertar_perm (x : A) (l : list A) : Permutation (x :: l) (insertar key x l).
Proof.
  induction l as [|y l IH]; simpl; [reflexivity|].
  destruct (key y <? key x); [|reflexivity].
  rewrite perm_swap. now constructor.
Qed.

Lemma ordenar_perm (l : list A) : Permutation l (ordenar key l).
Proof.
  induction l as [|x l IH]; simpl; [constructor|].
  rewrite <- insertar_perm. now constructor.
Qed.

Lemma insertar_creciente (x : A) (l : list A) :
  StronglySorted (fun a b => key a <= key b) l ->
  StronglySorted (fun a b => key a <= key b) (insertar key x l).
Proof.
  induction 1 as [|y l Hs IH Hy]; simpl.
  - repeat constructor.
  - destruct (key y <? key x) eqn:E.
    + apply Z.ltb_lt in E. constructor; [exact IH|].
      rewrite <- insertar_perm. constructor; [lia | exact Hy].
    + apply Z.ltb_ge in E. constructor; [now constructor|].
      constructor; [exact E|].
      revert Hy. apply Forall_impl. intros; lia.
Qed.

Lemma ordenar_creciente (l : list A) :
  StronglySorted (fun a b => key a <= key b) (ordenar key l).
Proof.
  induction l as [|x l IH]; simpl; [constructor|].
  now apply insertar_creciente.
Qed.

Lemma insertar_con_clave (k : Z) (x : A) (l : list A) :
  con_clave key k (insertar key x l) = con_clave key k (x :: l).
Proof.
  unfold con_clave. induction l as [|y l IH]; [reflexivity|].
  simpl insertar. destruct (key y <? key x) eqn:E; [|reflexivity].
  apply Z.ltb_lt in E. simpl in *. rewrite IH.
  destruct (key x =? k) eqn:Ex, (key y =? k) eqn:Ey; try reflexivity.
  apply Z.eqb_eq in Ex, Ey. lia.
Qed.

Lemma ordenar_con_clave (k : Z) (l : list A) :
  con_clave key k (ordenar key l) = con_clave key k l.
Proof.
  induction l as [|x l IH]; [reflexivity|].
  simpl ordenar. rewrite insertar_con_clave.
  unfold con_clave in *. simpl. now rewrite IH.
Qed.

Lemma StronglySorted_snoc (R : A -> A -> Prop) (l : list A) (a : A) :
  StronglySorted R l -> Forall (fun x => R x a) l -> StronglySorted R (l ++ [a]).
Proof.
  induction 1 as [|y l Hs IH Hy]; simpl; intros Ha.
  - repeat constructor.
  - inversion Ha; subst. constructor; [now apply IH|].
    apply Forall_app. split; [exact Hy | now repeat constructor].
Qed.

Lemma StronglySorted_rev (R : A -> A -> Prop) (l : list A) :
  StronglySorted R l -> StronglySorted (fun a b => R b a) (rev l).
Proof.
  induction 1 as [|y l Hs IH Hy]; simpl; [constructor|].
  apply StronglySorted_snoc; [exact IH|].
  apply Forall_rev. exact Hy.
Qed.

Lemma sorted_perm (reverse : bool) (l : list A) :
  Permutation l (sorted key reverse l).
Proof.
  unfold sorted. destruct reverse; [|apply ordenar_perm].
  rewrite <- Permutation_rev, <- ordenar_perm. apply Permutation_rev.
Qed.

Lemma sorted_con_clave (reverse : bool) (k : Z) (l : list A) :
  con_clave key k (sorted key reverse l) = con_clave key k l.
Proof.
  unfold sorted. destruct reverse; [|apply ordenar_con_clave].
  unfold con_clave. rewrite filter_rev.
  fold (con_clave key k (ordenar key (rev l))). rewrite ordenar_con_clave.
  unfold con_clave. rewrite filter_rev. apply rev_involutive.
Qed.

Lemma sorted_decreciente (l : list A) :
  StronglySorted (fun a b => key b <= key a) (sorted key true l).
Proof.
  unfold sorted.
  apply (StronglySorted_rev (fun a b => key a <= key b)), ordenar_creciente.
Qed.

End OrdenarCorrecto.

Lemma con_salida_nada (m : mundo) : con_salida (salida m ++ []) m = m.
Proof. destruct m; unfold con_salida; simpl. now rewrite app_nil_r. Qed.

Lemma para_cada_print {A} (f : A -> mensaje) (l : list A) (m : mundo) :
  para_cada l (fun x => print (f x)) m
  = (Ok tt, con_salida (salida m ++ map f l) m).
Proof.
  revert m; induction l as [|x l IH]; intros m; simpl.
  - unfold ret. now rewrite con_salida_nada.
  - unfold bind, print, modificar at 1. rewrite IH. f_equal.
    unfold con_salida; simpl. now rewrite <- app_assoc.
Qed.

(** C6.  In both directions [ordenar_por_superficie] prints the catalogue
    rearranged ([Permutation]), ordered by area in the direction asked for,
    and with the records of any one area in the order the catalogue has
    them; on the areas 10, 30, 10 of A, B, C the descending listing is
    B, A, C. *)
Theorem ordenar_por_superficie_estable (asc : bool) (m : mundo) :
  let o := objetos m in
  let cat := paises_catalogo m in
  let res := sorted (clave_superficie o) (negb asc) cat in
  ordenar_por_superficie asc m
    = (Ok tt, con_salida (salida m ++ map (fun p => Linea (o p)) res) m)
  /\ Permutation cat res
  /\ (if asc
      then StronglySorted (fun a b => superficie (o a) <= superficie (o b)) res
      else StronglySorted (fun a b => superficie (o b) <= superficie (o a)) res)
  /\ (forall k, con_clave (clave_superficie o) k res
                = con_clave (clave_superficie o) k cat)
  /\ (let A := Pais (de_ascii "A") 1 10 (de_ascii "X") in
      let B := Pais (de_ascii "B") 1 30 (de_ascii "X") in
      let C := Pais (de_ascii "C") 1 10 (de_ascii "X") in
      salida (snd (ordenar_por_superficie false (mundo_de [A; B; C] [] true)))
      = [Linea B; Linea A; Linea C]).
Proof.
  intros o cat res. split; [|split; [|split; [|split]]].
  - unfold ordenar_por_superficie, bind, leer. apply para_cada_print.
  - apply sorted_perm.
  - subst res. destruct asc; simpl negb.
    + apply (ordenar_creciente (clave_superficie o)).
    + apply (sorted_decreciente (clave_superficie o)).
  - intros k. apply sorted_con_clave.
  - reflexivity.
Qed.

(** ** Statistics *)

Lemma str_eqb_eq (a b : str) : str_eqb a b = true <-> a = b.
Proof.
  revert b; induction a as [|x a IH]; destruct b as [|y b]; simpl;
    try (split; congruence).
  rewrite andb_true_iff, N.eqb_eq, IH. split.
  - now intros [-> ->].
  - intros H; injection H as -> ->. now split.
Qed.

Lemma str_eqb_refl (a : str) : str_eqb a a = true.
Proof. now apply str_eqb_eq. Qed.

Lemma str_eqb_sym (a b : str) : str_eqb a b = str_eqb b a.
Proof.
  destruct (str_eqb a b) eqn:E, (str_eqb b a) eqn:E'; try reflexivity.
  - apply str_eqb_eq in E. subst. now rewrite str_eqb_refl in E'.
  - apply str_eqb_eq in E'. subst. now rewrite str_eqb_refl in E.
Qed.

Section Extremos.
Context {A : Type}.
Variable key : A -> Z.

Lemma max_desde_primero (l : list A) :
  forall actual pre mid,
    Forall (fun y => key y < key actual) pre ->
    Forall (fun y => key y <= key actual) mid ->
    primero_maximo key (pre ++ actual :: mid ++ l) (max_desde key actual l).
Proof.
  induction l as [|x l IH]; intros actual pre mid Hpre Hmid; simpl.
  - exists pre, mid. rewrite app_nil_r. auto.
  - destruct (key actual <? key x) eqn:E.
    + apply Z.ltb_lt in E.
      replace (pre ++ actual :: mid ++ x :: l)
        with ((pre ++ actual :: mid) ++ x :: [] ++ l)
        by (now rewrite <- app_assoc).
      apply IH; [|constructor].
      apply Forall_app. split.
      * revert Hpre. apply Forall_impl. intros; lia.
      * constructor; [lia|]. revert Hmid. apply Forall_impl. intros; lia.
    + apply Z.ltb_ge in E.
      replace (pre ++ actual :: mid ++ x :: l)
        with (pre ++ actual :: (mid ++ [x]) ++ l)
        by (now rewrite <- app_assoc).
      apply IH; [exact Hpre|].
      apply Forall_app. split; [exact Hmid | now repeat constructor].
Qed.

Lemma min_desde_primero (l : list A) :
  forall actual pre mid,
    Forall (fun y => key actual < key y) pre ->
    Forall (fun y => key actual <= key y) mid ->
    primero_minimo key (pre ++ actual :: mid ++ l) (min_desde key actual l).
Proof.
  induction l as [|x l IH]; intros actual pre mid Hpre Hmid; simpl.
  - exists pre, mid. rewrite app_nil_r. auto.
  - destruct (key x <? key actual) eqn:E.
    + apply Z.ltb_lt in E.
      replace (pre ++ actual :: mid ++ x :: l)
        with ((pre ++ actual :: mid) ++ x :: [] ++ l)
        by (now rewrite <- app_assoc).
      apply IH; [|constructor].
      apply Forall_app. split.
      * revert Hpre. apply Forall_impl. intros; lia.
      * constructor; [lia|]. revert Hmid. apply Forall_impl. intros; lia.
    + apply Z.ltb_ge in E.
      replace (pre ++ actual :: mid ++ x :: l)
        with (pre ++ actual :: (mid ++ [x]) ++ l)
        by (now rewrite <- app_assoc).
      apply IH; [exact Hpre|].
      apply Forall_app. split; [exact Hmid | now repeat constructor].
Qed.

End Extremos.

Lemma clave_eqb_eq (a b : option str) : clave_eqb a b = true <-> a = b.
Proof.
  destruct a as [x|], b as [y|]; simpl; try (split; congruence).
  rewrite str_eqb_eq. split; congruence.
Qed.

Lemma clave_eqb_refl (a : option str) : clave_eqb a a = true.
Proof. now apply clave_eqb_eq. Qed.

Lemma clave_eqb_sym (a b : option str) : clave_eqb a b = clave_eqb b a.
Proof.
  destruct a as [x|], b as [y|]; simpl; try reflexivity. apply str_eqb_sym.
Qed.

Lemma dict_get_set (d : dict) (k k' : option str) (v defecto : Z) :
  dict_get (dict_set d k v) k' defecto
  = if clave_eqb k' k then v else dict_get d k' defecto.
Proof.
  induction d as [|[k1 v1] d IH]; simpl.
  - reflexivity.
  - destruct (clave_eqb k k1) eqn:E; simpl.
    + apply clave_eqb_eq in E. subst k1. now destruct (clave_eqb k' k).
    + rewrite IH. destruct (clave_eqb k' k1) eqn:E1; [|reflexivity].
      apply clave_eqb_eq in E1. subst k1. rewrite clave_eqb_sym in E.
      now rewrite E.
Qed.

Lemma dict_set_claves (d : dict) (k : option str) (v : Z) (k' : option str) :
  In k' (map fst (dict_set d k v)) <-> k' = k \/ In k' (map fst d).
Proof.
  induction d as [|[k1 v1] d IH]; simpl.
  - intuition congruence.
  - destruct (clave_eqb k k1) eqn:E; simpl.
    + apply clave_eqb_eq in E. subst k1. intuition congruence.
    + rewrite IH. intuition congruence.
Qed.

Section Conteo.
Variable o : ref -> pais.

Lemma contar_desde (cat : list ref) (d : dict) (k : option str) :
  dict_get (fold_left (contar o) cat d) k 0 = dict_get d k 0 + cuenta o cat k.
Proof.
  revert d; induction cat as [|p cat IH]; intros d.
  - unfold cuenta, len. simpl. lia.
  - simpl fold_left. rewrite IH. unfold contar. rewrite dict_get_set.
    unfold cuenta, len. simpl filter. rewrite (clave_eqb_sym k).
    destruct (clave_eqb (continente (o p)) k) eqn:E.
    + apply clave_eqb_eq in E. rewrite E. simpl length. lia.
    + lia.
Qed.

Lemma claves_desde (cat : list ref) (d : dict) (k : option str) :
  In k (map fst (fold_left (contar o) cat d))
  <-> In k (map fst d) \/ exists p, In p cat /\ continente (o p) = k.
Proof.
  revert d; induction cat as [|p cat IH]; intros d; simpl.
  - split; [auto | intros [H | [p [[] _]]]; exact H].
  - rewrite IH. unfold contar. rewrite dict_set_claves. split.
    + intros [[-> | H] | [q [Hq E]]]; eauto.
    + intros [H | [q [[-> | Hq] E]]]; eauto.
Qed.

Lemma contar_continentes_cuenta (cat : list ref) (k : option str) :
  dict_get (contar_continentes o cat) k 0 = cuenta o cat k.
Proof. exact (contar_desde cat [] k). Qed.

Lemma contar_continentes_claves (cat : list ref) (k : option str) :
  In k (map fst (contar_continentes o cat))
  <-> exists p, In p cat /\ continente (o p) = k.
Proof.
  pose proof (claves_desde cat [] k) as H. simpl in H.
  unfold contar_continentes. tauto.
Qed.

End Conteo.

(** What [estadisticas] does on a catalogue that is not empty. *)
Lemma estadisticas_paso_a_paso (m : mundo) (primero : ref) (resto : list ref) :
  paises_catalogo m = primero :: resto ->
  let o := objetos m in
  let cat := paises_catalogo m in
  estadisticas m =
    match truediv (sum (map (fun p => poblacion (o p)) cat)) (len cat) with
    | Raise e => (Raise e, m)
    | Ok pp =>
        match truediv (sum (map (fun p => superficie (o p)) cat)) (len cat) with
        | Raise e => (Raise e, m)
        | Ok ps =>
            (Ok tt,
             con_salida
               (salida m ++
                [MayorPoblacion (o (max_desde (clave_poblacion o) primero resto));
                 MenorPoblacion (o (min_desde (clave_poblacion o) primero resto));
                 PromedioPoblacion pp; PromedioSuperficie ps;
                 CantidadPorContinente (contar_continentes o cat)]) m)
        end
    end.
Proof.
  intros H o cat. subst o cat.
  unfold estadisticas, bind, leer, lanzar, print, modificar. rewrite H.
  destruct (truediv (sum (map _ (primero :: resto))) _) as [pp|e];
    [|reflexivity].
  destruct (truediv (sum (map _ (primero :: resto))) _) as [ps|e];
    [|reflexivity].
  unfold con_salida; simpl. rewrite H. now rewrite <- !app_assoc.
Qed.

(** C7 (as amended).  [estadisticas] reports the empty catalogue exactly when
    the catalogue is empty.  On a catalogue that is not empty and whose two
    means are finite floats, it prints the first record of greatest
    population, the first of least population, the two means as the floats
    nearest to sum/count, and the dictionary of counts, which maps each raw
    continent string present to the number of records carrying exactly that
    string; for populations 10, 20, 30 the mean printed is 20.0. *)
Theorem estadisticas_correctas (m : mundo) :
  let o := objetos m in
  let cat := paises_catalogo m in
  (cat = [] <->
   estadisticas m = (Ok tt, con_salida (salida m ++ [CatalogoVacio]) m))
  /\ (cat <> [] ->
      forall pp ps,
        truediv (sum (map (fun p => poblacion (o p)) cat)) (len cat) = Ok pp ->
        truediv (sum (map (fun p => superficie (o p)) cat)) (len cat) = Ok ps ->
        exists mayor menor,
          primero_maximo (clave_poblacion o) cat mayor
          /\ primero_minimo (clave_poblacion o) cat menor
          /\ estadisticas m
             = (Ok tt,
                con_salida
                  (salida m ++
                   [MayorPoblacion (o mayor); MenorPoblacion (o menor);
                    PromedioPoblacion pp; PromedioSuperficie ps;
                    CantidadPorContinente (contar_continentes o cat)]) m))
  /\ (forall k, dict_get (contar_continentes o cat) k 0 = cuenta o cat k)
  /\ (forall k, In k (map fst (contar_continentes o cat))
                <-> exists p, In p cat /\ continente (o p) = k)
  /\ (let X := de_ascii "X" in
      let ps := [Pais (de_ascii "A") 10 1 X; Pais (de_ascii "B") 20 2 X;
                 Pais (de_ascii "C") 30 3 X] in
      nth_error (salida (snd (estadisticas (mundo_de ps [] true)))) 2
      = Some (PromedioPoblacion (inject_Z 20))).
Proof.
  intros o cat. subst o cat. split; [|split; [|split; [|split]]].
  - split.
    + intros H. unfold estadisticas, bind, leer, print, modificar.
      now rewrite H.
    + intros H. destruct (paises_catalogo m) as [|primero resto] eqn:E;
        [reflexivity|].
      exfalso. rewrite (estadisticas_paso_a_paso m primero resto E) in H.
      destruct (truediv _ _); [|discriminate].
      destruct (truediv _ _); [|discriminate].
      injection H as H. apply app_inv_head in H. discriminate.
  - destruct (paises_catalogo m) as [|primero resto] eqn:E; [congruence|].
    intros _ pp ps Hpp Hps.
    exists (max_desde (clave_poblacion (objetos m)) primero resto),
           (min_desde (clave_poblacion (objetos m)) primero resto).
    split; [|split].
    + apply (max_desde_primero (clave_poblacion (objetos m)) resto primero [] []);
        constructor.
    + apply (min_desde_primero (clave_poblacion (objetos m)) resto primero [] []);
        constructor.
    + rewrite (estadisticas_paso_a_paso m primero resto E).
      rewrite E, Hpp, Hps. reflexivity.
  - intros k. apply contar_continentes_cuenta.
  - intros k. apply contar_continentes_claves.
  - reflexivity.
Qed.

(** The catalogue of populations 10, 20, 30. *)
Lemma estadisticas_correctas_witness :
  let X := de_ascii "X" in
  let m := mundo_de [Pais (de_ascii "A") 10 1 X; Pais (de_ascii "B") 20 2 X;
                     Pais (de_ascii "C") 30 3 X] [] true in
  exists mayor menor,
    primero_maximo (clave_poblacion (objetos m)) (paises_catalogo m) mayor
    /\ primero_minimo (clave_poblacion (objetos m)) (paises_catalogo m) menor
    /\ estadisticas m
       = (Ok tt,
          con_salida
            (salida m ++
             [MayorPoblacion (objetos m mayor); MenorPoblacion (objetos m menor);
              PromedioPoblacion (inject_Z 20); PromedioSuperficie (inject_Z 2);
              CantidadPorContinente
                (contar_continentes (objetos m) (paises_catalogo m))]) m).
Proof.
  intros X m.
  apply (proj1 (proj2 (estadisticas_correctas m)));
    [discriminate | reflexivity | reflexivity].
Defined.

(** C7, the case it leaves out: a single record whose population is 2^1024
    makes the mean too large for a float, and [estadisticas] raises instead of
    printing anything. *)
Lemma estadisticas_desborda :
  let m := mundo_de [Pais (de_ascii "A") (2 ^ 1024) 1 (de_ascii "X")] [] true in
  paises_catalogo m <> []
  /\ fst (estadisticas m) = Raise OverflowError
  /\ salida (snd (estadisticas m)) = [].
Proof. vm_compute. repeat split. discriminate. Qed.

(** ** The commands that change the catalogue, case by case *)

Ltac desplegar :=
  unfold agregar_pais, actualizar_pais, guardar_archivo, escribir, nuevo,
    asignar_poblacion, asignar_superficie, print, bind, input, leer, lanzar,
    modificar, raise, ret.

Tactic Notation "reducir" :=
  cbn [entrada salida objetos libre paises_catalogo archivo escribible
       interrumpida con_entrada con_salida con_objetos con_libre con_catalogo
       con_archivo con_entorno fst snd].

Tactic Notation "reducir" "in" hyp(H) :=
  cbn [entrada salida objetos libre paises_catalogo archivo escribible
       interrumpida con_entrada con_salida con_objetos con_libre con_catalogo
       con_archivo con_entorno fst snd] in H.

Lemma cifras_rango (d : Decimal.uint) :
  Forall (fun c => (48 <= c <= 57)%N) (cifras d).
Proof. induction d; simpl; constructor; (lia || assumption). Qed.

Lemma str_de_int_codificable (z : Z) :
  forallb (fun c => negb (sustituto c)) (str_de_int z) = true.
Proof.
  assert (H : forall d, forallb (fun c => negb (sustituto c)) (cifras d) = true).
  { intros d. apply forallb_forall. intros c Hc.
    pose proof (cifras_rango d) as R. rewrite Forall_forall in R.
    specialize (R c Hc). unfold sustituto.
    apply negb_true_iff, andb_false_iff. left. apply N.leb_gt. lia. }
  unfold str_de_int. destruct (Z.to_int z); simpl; now rewrite H.
Qed.

Lemma codificable_cambio (x : pais) (p s : Z) :
  codificable (fila_de_pais x) = true ->
  codificable (fila_de_pais (Registro (nombre x) p s (continente x))) = true.
Proof.
  unfold codificable, fila_de_pais. cbn [forallb nombre poblacion superficie
    continente]. rewrite !andb_true_iff. intros (Hn & _ & _ & Hc & _).
  rewrite !str_de_int_codificable. auto.
Qed.

Lemma antes_de_fallar_ninguno (filas : list fila) :
  antes_de_fallar filas = None <-> forallb codificable filas = true.
Proof.
  induction filas as [|f resto IH]; simpl; [tauto|].
  destruct (codificable f); simpl; [|split; discriminate].
  rewrite <- IH. destruct (antes_de_fallar resto); split; congruence.
Qed.

Lemma instantanea_codificable (m : mundo) :
  codificables m -> antes_de_fallar (filas_csv (instantanea m)) = None.
Proof.
  intros H. apply antes_de_fallar_ninguno. unfold instantanea.
  cbn [filas_csv forallb]. change (codificable cabecera) with true.
  cbn [andb]. apply forallb_forall. intros f Hf.
  apply in_map_iff in Hf. destruct Hf as [r [<- Hr]].
  unfold codificables in H. rewrite Forall_forall in H. now apply H.
Qed.

(** What saving the catalogue of [m] does, by the state of the file
    system and the rows to write. *)
Lemma guardar_archivo_casos (m : mundo) :
  guardar_archivo (paises_catalogo m) m =
  if escribible m then
    match antes_de_fallar (filas_csv (instantanea m)) with
    | None => (Ok tt, con_archivo (Some (instantanea m)) m)
    | Some antes =>
        (Raise UnicodeEncodeError,
         con_archivo (Some (Contenido antes None)) m)
    end
  else
    match interrumpida m with
    | None => (Raise OSError, m)
    | Some c => (Raise OSError, con_archivo (Some c) m)
    end.
Proof.
  unfold guardar_archivo, escribir, instantanea, bind, leer, modificar, raise.
  cbn [filas_csv]. destruct (escribible m).
  - destruct (antes_de_fallar _); reflexivity.
  - destruct (interrumpida m); reflexivity.
Qed.

Lemma poner_mismo (o : ref -> pais) (r : ref) (p : pais) : poner o r p r = p.
Proof. unfold poner. now rewrite Nat.eqb_refl. Qed.

Lemma poner_otro (o : ref -> pais) (r r' : ref) (p : pais) :
  r' <> r -> poner o r p r' = o r'.
Proof. intros H. unfold poner. apply Nat.eqb_neq in H. now rewrite H. Qed.

(** Saving changes the file only. *)
Lemma guardar_y_decir_memoria (x : mensaje) (m : mundo) :
  let m' := snd (guardar_y_decir x m) in
  objetos m' = objetos m /\ libre m' = libre m
  /\ paises_catalogo m' = paises_catalogo m /\ entrada m' = entrada m
  /\ escribible m' = escribible m /\ interrumpida m' = interrumpida m.
Proof.
  unfold guardar_y_decir. rewrite guardar_archivo_casos.
  destruct (escribible m) eqn:Ew.
  - destruct (antes_de_fallar _); cbn; auto 10.
  - destruct (interrumpida m) eqn:Ei; cbn; auto 10.
Qed.

Lemma guardar_y_decir_ok (x : mensaje) (m : mundo) :
  escribible m = true -> codificables m ->
  guardar_y_decir x m
  = (Ok tt, con_salida (salida m ++ [x]) (con_archivo (Some (instantanea m)) m)).
Proof.
  intros Hw Hc. unfold guardar_y_decir.
  rewrite guardar_archivo_casos, Hw, (instantanea_codificable m Hc).
  reflexivity.
Qed.

Lemma codificables_tras_actualizar (m : mundo) (e : list str) (r : ref)
    (p s : Z) :
  codificables m -> codificables (tras_actualizar m e r p s).
Proof.
  unfold codificables, tras_actualizar. reducir. intros H.
  rewrite Forall_forall in *. intros x Hx. specialize (H x Hx).
  destruct (Nat.eq_dec x r) as [->|Hne].
  - rewrite !poner_mismo. cbn [nombre poblacion continente].
    now apply codificable_cambio.
  - now rewrite !poner_otro.
Qed.

Lemma agregar_pais_casos {U : Unicode} (m : mundo) :
  agregar_pais m =
  match entrada m with
  | [] => (Raise EOFError, m)
  | linea :: e1 =>
      if vacia (strip linea)
      then (Ok tt, con_salida (salida m ++ [NombreVacio]) (con_entrada e1 m))
      else if negb (vacia (buscar_pais (objetos m) (paises_catalogo m)
                                       (strip linea)))
      then (Ok tt, con_salida (salida m ++ [ElPaisYaExiste]) (con_entrada e1 m))
      else
        match e1 with
        | pob :: sup :: lc :: e4 =>
            if negb (isdigit pob && isdigit sup) || vacia (strip lc)
            then (Ok tt, con_salida (salida m ++ [DatosInvalidos])
                                    (con_entrada e4 m))
            else
              match int_ pob with
              | Raise e => (Raise e, con_entrada e4 m)
              | Ok p =>
                  match int_ sup with
                  | Raise e => (Raise e, con_entrada e4 m)
                  | Ok s =>
                      guardar_y_decir PaisAgregado
                        (tras_agregar m e4 (Pais (strip linea) p s (strip lc)))
                  end
              end
        | _ => (Raise EOFError, con_entrada [] m)
        end
  end.
Proof.
  unfold guardar_y_decir. desplegar. reducir.
  destruct (entrada m) as [|linea e1]; [reflexivity|]. reducir.
  destruct (vacia (strip linea)); [reflexivity|]. reducir.
  destruct (negb (vacia (buscar_pais _ _ _))); [reflexivity|]. reducir.
  destruct e1 as [|pob [|sup [|lc e4]]]; try reflexivity. reducir.
  destruct (negb _ || _); [reflexivity|].
  destruct (int_ pob); [|reflexivity]. destruct (int_ sup); [|reflexivity].
  unfold tras_agregar. reducir. destruct (escribible m).
  - destruct (antes_de_fallar _); reflexivity.
  - destruct (interrumpida m); reflexivity.
Qed.

Lemma actualizar_pais_casos {U : Unicode} (m : mundo) :
  actualizar_pais m =
  match entrada m with
  | [] => (Raise EOFError, m)
  | consulta :: e1 =>
      match buscar_pais (objetos m) (paises_catalogo m) consulta with
      | [] => (Ok tt, con_salida (salida m ++ [NoEncontrado]) (con_entrada e1 m))
      | r :: _ =>
          match e1 with
          | pob :: sup :: e3 =>
              if isdigit pob && isdigit sup then
                match int_ pob with
                | Raise e => (Raise e, con_entrada e3 m)
                | Ok p =>
                    match int_ sup with
                    | Raise e =>
                        (Raise e,
                         con_objetos
                           (poner (objetos m) r
                              (Registro (nombre (objetos m r)) p
                                        (superficie (objetos m r))
                                        (continente (objetos m r))))
                           (con_entrada e3 m))
                    | Ok s =>
                        guardar_y_decir DatosActualizados
                          (tras_actualizar m e3 r p s)
                    end
                end
              else (Ok tt, con_salida (salida m ++ [ValoresInvalidos])
                                      (con_entrada e3 m))
          | _ => (Raise EOFError, con_entrada [] m)
          end
      end
  end.
Proof.
  unfold guardar_y_decir. desplegar. reducir.
  destruct (entrada m) as [|consulta e1]; [reflexivity|]. reducir.
  destruct (buscar_pais _ _ _) as [|r enc]; [reflexivity|].
  destruct e1 as [|pob [|sup e3]]; try reflexivity. reducir.
  destruct (isdigit pob && isdigit sup); [|reflexivity].
  destruct (int_ pob); [|reflexivity]. reducir.
  destruct (int_ sup); [|reflexivity].
  unfold tras_actualizar. reducir. destruct (escribible m).
  - destruct (antes_de_fallar _); reflexivity.
  - destruct (interrumpida m); reflexivity.
Qed.

(** ** Update: which record is changed *)

Lemma coincide_contiene {U : Unicode} (o : ref -> pais) (consulta : str) (r : ref) :
  coincide o consulta r = true
  <-> contiene (normalizar (nombre (o r))) (normalizar consulta).
Proof. apply str_in_spec. Qed.

Lemma coincide_no_contiene {U : Unicode} (o : ref -> pais) (consulta : str) (r : ref) :
  coincide o consulta r = false
  <-> ~ contiene (normalizar (nombre (o r))) (normalizar consulta).
Proof.
  rewrite <- coincide_contiene. destruct (coincide o consulta r); split;
    congruence.
Qed.

Lemma buscar_pais_ninguno {U : Unicode} (o : ref -> pais) (cat : list ref)
    (consulta : str) :
  Forall (fun x => ~ contiene (normalizar (nombre (o x))) (normalizar consulta))
         cat ->
  buscar_pais o cat consulta = [].
Proof.
  intros H. apply filter_ninguno. intros x Hx.
  apply (coincide_no_contiene o consulta x).
  rewrite Forall_forall in H. now apply H.
Qed.

Lemma buscar_pais_primero {U : Unicode} (o : ref -> pais) (pre post : list ref)
    (r : ref) (consulta : str) :
  Forall (fun x => ~ contiene (normalizar (nombre (o x))) (normalizar consulta))
         pre ->
  contiene (normalizar (nombre (o r))) (normalizar consulta) ->
  buscar_pais o (pre ++ r :: post) consulta = r :: buscar_pais o post consulta.
Proof.
  intros Hpre Hr. unfold buscar_pais. rewrite filter_app.
  fold (buscar_pais o pre consulta). rewrite (buscar_pais_ninguno _ _ _ Hpre).
  simpl. apply coincide_contiene in Hr. unfold coincide in Hr. now rewrite Hr.
Qed.

(** C5.  [actualizar_pais] reads the query and then: if no record of the
    catalogue has a normalized name containing the normalized query, it
    prints that nothing was found and changes nothing; otherwise its target
    is the first such record in catalogue order, and with two valid numbers
    exactly that object receives the new population and area, whatever
    becomes of the file; with a writable file and records that can all be
    encoded the command then reports the update.  With India and Indiana and
    the query "india", the record changed is whichever of the two comes
    first. *)
Theorem actualizar_pais_primera_coincidencia {U : Unicode}
    (m : mundo) (consulta : str) (e1 : list str) :
  entrada m = consulta :: e1 ->
  let o := objetos m in
  let cat := paises_catalogo m in
  (Forall (fun x => ~ contiene (normalizar (nombre (o x))) (normalizar consulta))
          cat ->
   actualizar_pais m
   = (Ok tt, con_salida (salida m ++ [NoEncontrado]) (con_entrada e1 m)))
  /\ (forall pre r post,
        cat = pre ++ r :: post ->
        Forall (fun x => ~ contiene (normalizar (nombre (o x)))
                                    (normalizar consulta)) pre ->
        contiene (normalizar (nombre (o r))) (normalizar consulta) ->
        forall pob sup e3 p s,
          e1 = pob :: sup :: e3 ->
          isdigit pob = true -> isdigit sup = true ->
          int_ pob = Ok p -> int_ sup = Ok s ->
          let m' := snd (actualizar_pais m) in
          objetos m' r = Registro (nombre (o r)) p s (continente (o r))
          /\ (forall r', r' <> r -> objetos m' r' = o r')
          /\ paises_catalogo m' = cat
          /\ (escribible m = true -> codificables m ->
              fst (actualizar_pais m) = Ok tt
              /\ salida m' = salida m ++ [DatosActualizados]))
  /\ (let India := Pais (de_ascii "India") 1400 3287 (de_ascii "Asia") in
      let Indiana := Pais (de_ascii "Indiana") 6 94 (de_ascii "America") in
      let e := [de_ascii "india"; de_ascii "5"; de_ascii "7"] in
      registros (snd (@actualizar_pais Latin1.tablas
                        (mundo_de [India; Indiana] e true)))
      = [Pais (de_ascii "India") 5 7 (de_ascii "Asia"); Indiana]
      /\ registros (snd (@actualizar_pais Latin1.tablas
                           (mundo_de [Indiana; India] e true)))
         = [Pais (de_ascii "Indiana") 5 7 (de_ascii "America"); India]).
Proof.
  intros He o cat. subst o cat. split; [|split].
  - intros Hno. rewrite actualizar_pais_casos, He.
    now rewrite (buscar_pais_ninguno _ _ _ Hno).
  - intros pre r post Hcat Hpre Hr pob sup e3 p s -> Hdp Hds Hp Hs.
    rewrite actualizar_pais_casos, He, Hcat.
    rewrite (buscar_pais_primero _ _ _ _ _ Hpre Hr).
    rewrite Hdp, Hds, Hp, Hs. cbn [andb]. rewrite <- Hcat.
    destruct (guardar_y_decir_memoria DatosActualizados
                (tras_actualizar m e3 r p s)) as (Ho & _ & Hc & _).
    cbv zeta in Ho, Hc |- *. rewrite Ho, Hc.
    split; [|split; [|split]].
    + unfold tras_actualizar. reducir. now rewrite !poner_mismo.
    + intros r' Hr'. unfold tras_actualizar. reducir. now rewrite !poner_otro.
    + reflexivity.
    + intros Hw Hcod.
      rewrite guardar_y_decir_ok;
        [split; reflexivity | exact Hw
         | now apply codificables_tras_actualizar].
  - split; reflexivity.
Qed.

(** India first, Indiana second, query "india": object 0 is the target. *)
Lemma actualizar_pais_primera_coincidencia_witness :
  let India := Pais (de_ascii "India") 1400 3287 (de_ascii "Asia") in
  let Indiana := Pais (de_ascii "Indiana") 6 94 (de_ascii "America") in
  let m := mundo_de [India; Indiana]
                    [de_ascii "india"; de_ascii "5"; de_ascii "7"] true in
  let m' := snd (@actualizar_pais Latin1.tablas m) in
  objetos m' 0%nat = Pais (de_ascii "India") 5 7 (de_ascii "Asia")
  /\ (forall r', r' <> 0%nat -> objetos m' r' = objetos m r')
  /\ paises_catalogo m' = paises_catalogo m
  /\ fst (@actualizar_pais Latin1.tablas m) = Ok tt
  /\ salida m' = salida m ++ [DatosActualizados].
Proof.
  intros India Indiana m.
  destruct (proj1 (proj2
    (@actualizar_pais_primera_coincidencia Latin1.tablas m
       (de_ascii "india") [de_ascii "5"; de_ascii "7"] eq_refl))
    [] 0%nat [1%nat] eq_refl (Forall_nil _)
    (ex_intro _ [] (ex_intro _ [] eq_refl))
    (de_ascii "5") (de_ascii "7") [] 5 7 eq_refl eq_refl eq_refl eq_refl
    eq_refl) as (H1 & H2 & H3 & H4).
  split; [exact H1 | split; [exact H2 | split; [exact H3|]]].
  apply H4; [reflexivity|].
  repeat (constructor; [reflexivity|]). constructor.
Defined.

(** ** Add: the duplicate check *)

Lemma buscar_pais_alguno {U : Unicode} (o : ref -> pais) (cat : list ref)
    (consulta : str) (r : ref) :
  In r cat ->
  contiene (normalizar (nombre (o r))) (normalizar consulta) ->
  buscar_pais o cat consulta <> [].
Proof.
  intros Hin Hr Hnil.
  assert (H : In r (buscar_pais o cat consulta)).
  { apply filter_In. split; [exact Hin | now apply str_in_spec]. }
  rewrite Hnil in H. exact H.
Qed.

(** C10 (as amended).  [agregar_pais] rejects as already existing every new
    name that is not empty once trimmed and whose normalization occurs inside
    the normalized name of some record; so "Chi" is refused when "Chile"
    exists, although "chi" is the canonical form of no record. *)
Theorem agregar_pais_rechaza_subcadenas {U : Unicode}
    (m : mundo) (linea : str) (e1 : list str) :
  (entrada m = linea :: e1 ->
   strip linea <> [] ->
   (exists r, In r (paises_catalogo m)
              /\ contiene (normalizar (nombre (objetos m r)))
                          (normalizar (strip linea))) ->
   agregar_pais m
   = (Ok tt, con_salida (salida m ++ [ElPaisYaExiste]) (con_entrada e1 m)))
  /\ (let Chile := Pais (de_ascii "Chile") 19 756 (de_ascii "America") in
      let m0 := mundo_de [Chile] [de_ascii "Chi"] true in
      salida (snd (@agregar_pais Latin1.tablas m0)) = [ElPaisYaExiste]
      /\ ~ In (@normalizar Latin1.tablas (de_ascii "Chi"))
              (@formas Latin1.tablas (objetos m0) (paises_catalogo m0))).
Proof.
  split.
  - intros He Hne [r [Hin Hr]]. rewrite agregar_pais_casos, He.
    apply vacia_false in Hne. rewrite Hne.
    pose proof (buscar_pais_alguno _ _ _ _ Hin Hr) as Hb.
    apply vacia_false in Hb. now rewrite Hb.
  - split; [reflexivity|]. vm_compute. intros [H | []]. discriminate.
Qed.

(** "Chi" after "Chile". *)
Lemma agregar_pais_rechaza_subcadenas_witness :
  let Chile := Pais (de_ascii "Chile") 19 756 (de_ascii "America") in
  let m0 := mundo_de [Chile] [de_ascii "Chi"] true in
  @agregar_pais Latin1.tablas m0
  = (Ok tt, con_salida (salida m0 ++ [ElPaisYaExiste]) (con_entrada [] m0)).
Proof.
  intros Chile m0.
  apply (proj1 (@agregar_pais_rechaza_subcadenas Latin1.tablas m0
                  (de_ascii "Chi") [])).
  - reflexivity.
  - discriminate.
  - exists 0%nat. split; [now left|].
    exists [], (de_ascii "le"). reflexivity.
Defined.

(** C10, the case it leaves out: the empty name.  Its normalization, the
    empty string, occurs inside "chile" and differs from it, yet the answer
    of [agregar_pais] is that the name is empty, not that the country
    exists. *)
Lemma agregar_pais_nombre_vacio :
  let Chile := Pais (de_ascii "Chile") 19 756 (de_ascii "America") in
  let m0 := mundo_de [Chile] [[]] true in
  contiene (@normalizar Latin1.tablas (nombre Chile))
           (@normalizar Latin1.tablas [])
  /\ @normalizar Latin1.tablas [] <> @normalizar Latin1.tablas (nombre Chile)
  /\ salida (snd (@agregar_pais Latin1.tablas m0)) = [NombreVacio]
  /\ salida (snd (@agregar_pais Latin1.tablas m0)) <> [ElPaisYaExiste].
Proof.
  intros Chile m0. split; [|split; [|split]].
  - exists [], (de_ascii "chile"). reflexivity.
  - discriminate.
  - reflexivity.
  - discriminate.
Qed.

(** C1, on the code.  "peru" is refused when "Perú" exists, as it must.
    "Niger" is refused as well when "Nigeria" exists, although no record has
    the canonical form "niger": the check of [agregar_pais] is the substring
    search of [buscar_pais], not an equality. *)
Theorem agregar_pais_Peru_y_Niger :
  (let m := mundo_de [Pais Peru' 33 1285 (de_ascii "America")]
                     [de_ascii "peru"] true in
   In (@normalizar Latin1.tablas (de_ascii "peru"))
      (@formas Latin1.tablas (objetos m) (paises_catalogo m))
   /\ salida (snd (@agregar_pais Latin1.tablas m)) = [ElPaisYaExiste])
  /\ (let m := mundo_de [Pais (de_ascii "Nigeria") 218 923 (de_ascii "Africa")]
                        [de_ascii "Niger"; de_ascii "25"; de_ascii "1267";
                         de_ascii "Africa"] true in
      ~ In (@normalizar Latin1.tablas (de_ascii "Niger"))
           (@formas Latin1.tablas (objetos m) (paises_catalogo m))
      /\ salida (snd (@agregar_pais Latin1.tablas m)) = [ElPaisYaExiste]
      /\ registros (snd (@agregar_pais Latin1.tablas m)) = registros m).
Proof.
  split.
  - split; [now left | reflexivity].
  - split; [|split; reflexivity].
    vm_compute. intros [H | []]. discriminate.
Qed.

(** ** All or nothing *)

Lemma int_desde_error {U : Unicode} (s : str) (acc : Z) (e : excepcion) :
  int_desde acc s = Raise e -> e = ValueError.
Proof.
  revert acc; induction s as [|c s IH]; intros acc; simpl; [discriminate|].
  destruct (decimal c); [apply IH | congruence].
Qed.

Lemma int_error {U : Unicode} (s : str) (e : excepcion) :
  int_ s = Raise e -> e = ValueError.
Proof.
  unfold int_. destruct (vacia s); [congruence|].
  destruct (_ && _); [congruence | apply int_desde_error].
Qed.

Lemma antes_de_fallar_alguna (filas antes : list fila) :
  antes_de_fallar filas = Some antes ->
  exists f resto, filas = antes ++ f :: resto /\ codificable f = false.
Proof.
  revert antes; induction filas as [|f resto IH]; intros antes; simpl;
    [discriminate|].
  destruct (codificable f) eqn:Ef.
  - destruct (antes_de_fallar resto) as [a|]; [|discriminate].
    intros H. injection H as <-.
    destruct (IH a eq_refl) as (g & r & -> & Hg). now exists g, r.
  - intros H. injection H as <-. now exists f, resto.
Qed.

(** The three ways a save can end, on a world [m] whose memory already holds
    the change. *)
Lemma guardar_y_decir_casos (x : mensaje) (m : mundo) :
  match guardar_y_decir x m with
  | (Ok _, m') =>
      salida m' = salida m ++ [x] /\ archivo m' = Some (instantanea m')
  | (Raise OSError, m') => archivo m' = tras_rechazo m
  | (Raise UnicodeEncodeError, m') => escrito_en_parte m'
  | (Raise _, _) => False
  end.
Proof.
  unfold guardar_y_decir. rewrite guardar_archivo_casos.
  destruct (escribible m).
  - destruct (antes_de_fallar _) as [antes|] eqn:E.
    + destruct (antes_de_fallar_alguna _ _ E) as (f & resto & Hf & Hc).
      exists antes, f, resto. auto.
    + split; reflexivity.
  - unfold tras_rechazo. destruct (interrumpida m); reflexivity.
Qed.

(** C4 (as amended).  When [agregar_pais] or [actualizar_pais] rejects its
    input (empty name, existing country, invalid data, not found, invalid
    values), objects, catalogue and file are as before.  After a successful
    addition or update the file holds the full snapshot of the catalogue in
    memory.  When saving raises, the memory is not as before: the new record
    is already in the catalogue, respectively the two fields of the target
    are already overwritten; the file is as before only when it could not be
    opened, otherwise it holds what the interrupted write left or the rows
    before the one that could not be encoded.  No other exception of an
    addition changes memory or file; no other exception of an update
    changes the catalogue list or the file. *)
Theorem mutaciones_todo_o_nada {U : Unicode} (m : mundo) :
  (match agregar_pais m with
   | (Ok _, m') =>
       (exists x, rechazo x /\ salida m' = salida m ++ [x] /\ intacto m m')
       \/ (salida m' = salida m ++ [PaisAgregado]
           /\ paises_catalogo m' = paises_catalogo m ++ [libre m]
           /\ archivo m' = Some (instantanea m'))
   | (Raise OSError, m') =>
       paises_catalogo m' = paises_catalogo m ++ [libre m]
       /\ archivo m' = tras_rechazo m
   | (Raise UnicodeEncodeError, m') =>
       paises_catalogo m' = paises_catalogo m ++ [libre m]
       /\ escrito_en_parte m'
   | (Raise _, m') => intacto m m'
   end)
  /\ (match actualizar_pais m with
      | (Ok _, m') =>
          (exists x, rechazo x /\ salida m' = salida m ++ [x] /\ intacto m m')
          \/ (salida m' = salida m ++ [DatosActualizados]
              /\ paises_catalogo m' = paises_catalogo m
              /\ archivo m' = Some (instantanea m'))
      | (Raise OSError, m') =>
          archivo m' = tras_rechazo m /\ actualizado m m'
      | (Raise UnicodeEncodeError, m') =>
          escrito_en_parte m' /\ actualizado m m'
      | (Raise _, m') =>
          paises_catalogo m' = paises_catalogo m /\ archivo m' = archivo m
      end).
Proof.
  split.
  - rewrite agregar_pais_casos.
    destruct (entrada m) as [|linea e1]; [repeat split|].
    destruct (vacia (strip linea)).
    { left. exists NombreVacio. unfold rechazo, intacto. auto 10. }
    destruct (negb (vacia (buscar_pais _ _ _))).
    { left. exists ElPaisYaExiste. unfold rechazo, intacto. auto 10. }
    destruct e1 as [|pob [|sup [|lc e4]]]; try (repeat split).
    destruct (negb _ || _).
    { left. exists DatosInvalidos. unfold rechazo, intacto. auto 10. }
    destruct (int_ pob) as [p|e] eqn:Hp.
    2:{ apply int_error in Hp. subst e. repeat split. }
    destruct (int_ sup) as [s|e] eqn:Hs.
    2:{ apply int_error in Hs. subst e. repeat split. }
    set (mt := tras_agregar m e4 _).
    pose proof (guardar_y_decir_casos PaisAgregado mt) as Hg.
    destruct (guardar_y_decir_memoria PaisAgregado mt) as (_ & _ & Hc & _).
    cbv zeta in Hc.
    destruct (guardar_y_decir PaisAgregado mt) as [[[]|e] m'];
      cbn [snd] in Hc.
    + right. destruct Hg as [Hsal Har]. auto.
    + destruct e; try contradiction; split; assumption.
  - rewrite actualizar_pais_casos.
    destruct (entrada m) as [|consulta e1] eqn:He; [now split|].
    destruct (buscar_pais _ _ _) as [|r enc] eqn:Hb.
    { left. exists NoEncontrado. unfold rechazo, intacto. auto 10. }
    destruct e1 as [|pob [|sup e3]]; try (now split).
    destruct (isdigit pob && isdigit sup).
    2:{ left. exists ValoresInvalidos. unfold rechazo, intacto. auto 10. }
    destruct (int_ pob) as [p|e] eqn:Hp.
    2:{ apply int_error in Hp. subst e. now split. }
    destruct (int_ sup) as [s|e] eqn:Hs.
    2:{ apply int_error in Hs. subst e. now split. }
    set (mt := tras_actualizar m e3 r p s).
    pose proof (guardar_y_decir_casos DatosActualizados mt) as Hg.
    destruct (guardar_y_decir_memoria DatosActualizados mt)
      as (Ho & _ & Hc & _).
    cbv zeta in Ho, Hc.
    assert (Hact : actualizado m (snd (guardar_y_decir DatosActualizados mt))).
    { exists consulta, pob, sup, e3, r. split; [exact He|]. split.
      - assert (H : In r (buscar_pais (objetos m) (paises_catalogo m) consulta))
          by (rewrite Hb; now left).
        apply filter_In in H. tauto.
      - rewrite Ho. unfold mt, tras_actualizar. reducir.
        rewrite !poner_mismo. cbn [poblacion superficie]. now rewrite Hp, Hs. }
    destruct (guardar_y_decir DatosActualizados mt) as [[[]|e] m'];
      cbn [snd] in Hc, Hact.
    + right. destruct Hg as [Hsal Har]. auto.
    + destruct e; try contradiction; split; assumption.
Qed.

(** A name typed with a surrogate: the record is appended, the save raises
    while encoding its row, and the file is left with the header and the
    rows before it. *)
Example agregar_pais_no_codificable :
  let Chile := Pais (de_ascii "Chile") 19 756 (de_ascii "America") in
  let m := mundo_de [Chile] [[56320%N]; de_ascii "1"; de_ascii "1";
                             de_ascii "X"] true in
  let m' := snd (@agregar_pais Latin1.tablas m) in
  fst (@agregar_pais Latin1.tablas m) = Raise UnicodeEncodeError
  /\ registros m' = [Chile; Pais [56320%N] 1 1 (de_ascii "X")]
  /\ archivo m' = Some (Contenido [cabecera; fila_de_pais Chile] None).
Proof. vm_compute. repeat split. Qed.

(** C4, the case it leaves out: adding Chile while the file cannot be
    written raises from [guardar_archivo] after the record has been
    appended, so the catalogue in memory is no longer the one before. *)
Lemma agregar_pais_falla_al_guardar :
  let m := mundo_de [] [de_ascii "Chile"; de_ascii "19"; de_ascii "756";
                        de_ascii "America"] false in
  let m' := snd (@agregar_pais Latin1.tablas m) in
  fst (@agregar_pais Latin1.tablas m) = Raise OSError
  /\ registros m = []
  /\ registros m' = [Pais (de_ascii "Chile") 19 756 (de_ascii "America")]
  /\ paises_catalogo m' <> paises_catalogo m.
Proof. vm_compute. repeat split. discriminate. Qed.

(** ** Loading *)

Lemma int_desde_no_negativo {U : Unicode} (s : str) (acc z : Z) :
  0 <= acc -> int_desde acc s = Ok z -> 0 <= z.
Proof.
  revert acc; induction s as [|c s IH]; intros acc Hacc; simpl.
  - congruence.
  - destruct (decimal c) as [d|]; [|discriminate].
    intros H. apply (IH (10 * acc + Z.of_N d)); [|exact H].
    pose proof (N2Z.is_nonneg d). lia.
Qed.

Lemma int_no_negativo {U : Unicode} (s : str) (z : Z) : int_ s = Ok z -> 0 <= z.
Proof.
  unfold int_. destruct (vacia s); [discriminate|].
  destruct (_ && _); [discriminate|].
  now apply int_desde_no_negativo.
Qed.

Lemma valor_fila_vacia {U : Unicode} (fn : fila) (k : str) :
  valor_fila fn [] k = Ok None \/ valor_fila fn [] k = Raise KeyError.
Proof.
  induction fn as [|n ns IH]; cbn [valor_fila tl]; [now right|].
  destruct IH as [-> | ->]; [now left|].
  destruct (str_eqb k n); [now left | now right].
Qed.

Lemma aceptada_vacia {U : Unicode} (fn : fila) : aceptada fn [] = false.
Proof.
  unfold aceptada.
  destruct (valor_fila_vacia fn (de_ascii "nombre")) as [-> | ->]; reflexivity.
Qed.

(** The test of line 44 as the loop evaluates it and as [aceptada] states
    it. *)
Lemma fila_aceptada_spec {U : Unicode} (fn row : fila) :
  match fila_aceptada (valor_fila fn row) with
  | Ok (Some (n, p, s)) =>
      aceptada fn row = true
      /\ valor_fila fn row (de_ascii "nombre") = Ok (Some n)
      /\ valor_fila fn row (de_ascii "poblacion") = Ok (Some p)
      /\ valor_fila fn row (de_ascii "superficie") = Ok (Some s)
  | Ok None => aceptada fn row = false
  | Raise _ => True
  end.
Proof.
  unfold fila_aceptada, aceptada.
  destruct (valor_fila fn row (de_ascii "nombre")) as [[n|]|];
    [|reflexivity|exact I].
  destruct (vacia n) eqn:En.
  { destruct (valor_fila fn row (de_ascii "poblacion")) as [[p|]|];
      try reflexivity.
    destruct (valor_fila fn row (de_ascii "superficie")) as [[s|]|];
      reflexivity. }
  destruct (valor_fila fn row (de_ascii "poblacion")) as [[p|]|];
    try exact I.
  destruct (isdigit p) eqn:Ep; cbn [negb].
  2:{ destruct (valor_fila fn row (de_ascii "superficie")) as [[s|]|];
        reflexivity. }
  destruct (valor_fila fn row (de_ascii "superficie")) as [[s|]|];
    try exact I.
  destruct (isdigit s) eqn:Es; [|reflexivity].
  repeat split; reflexivity.
Qed.

(** What the loop of [leer_archivo] has done when it ends normally: the new
    objects are the next addresses, one per accepted row and in the order of
    the rows, and nothing else has changed. *)
Lemma leer_filas_ok {U : Unicode} (fn : fila) (fin : option excepcion)
    (filas : list fila) :
  forall (acc : list ref) (m : mundo) (cat : list ref) (m' : mundo),
    leer_filas fn filas fin acc m = (Ok cat, m') ->
    exists nuevos,
      cat = acc ++ nuevos
      /\ nuevos = seq (libre m) (length nuevos)
      /\ libre m' = (libre m + length nuevos)%nat
      /\ (forall r, (r < libre m)%nat -> objetos m' r = objetos m r)
      /\ Forall2 (cargada fn) (filter (aceptada fn) filas)
                 (map (objetos m') nuevos)
      /\ paises_catalogo m' = paises_catalogo m
      /\ archivo m' = archivo m.
Proof.
  induction filas as [|row resto IH]; intros acc m cat m' H.
  - cbn [leer_filas] in H. destruct fin; [discriminate|].
    injection H as H1 H2. subst cat m'. exists []. simpl.
    rewrite app_nil_r, Nat.add_0_r. repeat split. constructor.
  - cbn [leer_filas] in H. cbn [filter].
    destruct (existsb campo_excesivo row); [discriminate|].
    destruct (vacia row) eqn:Ev.
    { apply vacia_nil in Ev. subst row. rewrite aceptada_vacia.
      now apply IH. }
    pose proof (fila_aceptada_spec fn row) as S.
    unfold bind, lanzar, nuevo in H.
    destruct (fila_aceptada (valor_fila fn row)) as [[[[n p] s]|]|e];
      [|rewrite S; now apply IH|discriminate].
    destruct S as (Ha & Hn & Hp & Hs). rewrite Ha.
    destruct (int_ p) as [vp|] eqn:Ep; [|discriminate].
    destruct (int_ s) as [vs|] eqn:Es; [|discriminate].
    destruct (valor_fila fn row (de_ascii "continente")) as [c|] eqn:Ec;
      [|discriminate].
    apply IH in H. reducir in H.
    destruct H as [nuevos [Hcat [Hseq [Hlib [Hobj [Hcar [Hpc Har]]]]]]].
    exists (libre m :: nuevos).
    assert (Hm : objetos m' (libre m) = Registro n vp vs c).
    { rewrite Hobj by lia. apply poner_mismo. }
    split; [now rewrite Hcat, <- app_assoc|].
    split; [simpl; now rewrite <- Hseq|].
    split; [simpl; lia|].
    split; [intros r Hr; rewrite Hobj by lia; apply poner_otro; lia|].
    split; [|now split].
    simpl. constructor; [|exact Hcar].
    rewrite Hm. unfold cargada. cbn [nombre poblacion superficie continente].
    split; [exact Hn|]. split; [now exists p|]. split; [now exists s|].
    exact Ec.
Qed.

Lemma menu_inicio_ok {U : Unicode} (m0 m1 : mundo) :
  menu_inicio m0 = (Ok tt, m1) ->
  Forall2 (cargada (cabecera_de m0))
          (filter (aceptada (cabecera_de m0)) (filas_de m0)) (registros m1)
  /\ asignadas m1.
Proof.
  unfold menu_inicio, leer_archivo, crear_sino_existe, escribir, cabecera_de,
    filas_de, bind, leer, modificar, raise, ret.
  intros H.
  assert (G : forall fn fin m cat m' fs,
             leer_filas fn fs fin [] m = (Ok cat, m') ->
             Forall2 (cargada fn) (filter (aceptada fn) fs)
                     (registros (con_catalogo cat m'))
             /\ asignadas (con_catalogo cat m')).
  { intros fn fin m cat m' fs L. apply leer_filas_ok in L.
    destruct L as [nuevos [Hcat [Hseq [Hlib [_ [Hcar _]]]]]].
    simpl in Hcat. subst cat. unfold registros, asignadas. reducir.
    split; [exact Hcar|].
    rewrite Hseq, Hlib. apply Forall_forall. intros r Hr.
    apply in_seq in Hr. lia. }
  destruct (archivo m0) as [c|] eqn:Ha; reducir in H.
  - rewrite Ha in H. destruct (filas_csv c) as [|fn filas].
    + destruct (ilegible c); [discriminate|].
      injection H as H. subst m1. simpl. split; constructor.
    + destruct (existsb campo_excesivo fn); [discriminate|].
      destruct (leer_filas fn filas (ilegible c) [] m0) as [[cat|e] m'] eqn:L;
        [|discriminate].
      injection H as H. subst m1. now apply (G fn (ilegible c) m0).
  - destruct (escribible m0).
    + change (antes_de_fallar [cabecera]) with (@None (list fila)) in H.
      reducir in H. cbn [filas_csv ilegible] in H.
      change (existsb campo_excesivo cabecera) with false in H.
      cbn [leer_filas] in H. unfold ret in H.
      injection H as H. subst m1. simpl. split; constructor.
    + destruct (interrumpida m0); discriminate.
Qed.

Lemma cargada_valida {U : Unicode} (fn : fila) (fs : list fila)
    (ps : list pais) :
  Forall2 (cargada fn) (filter (aceptada fn) fs) ps ->
  Forall valido_al_cargar ps.
Proof.
  intros H.
  assert (Ha : Forall (fun f => aceptada fn f = true)
                      (filter (aceptada fn) fs)).
  { apply Forall_forall. intros f Hf. now apply filter_In in Hf. }
  induction H as [|f p fs' ps' Hfp _ IH]; constructor.
  - inversion Ha as [|? ? Hf _]; subst.
    destruct Hfp as (Hn & (tp & Hp & Ip) & (ts & Hs & Is) & _).
    unfold valido_al_cargar. unfold aceptada in Hf.
    rewrite Hn, Hp, Hs in Hf.
    apply andb_true_iff in Hf. destruct Hf as [Hf _].
    apply andb_true_iff in Hf. destruct Hf as [Hf _].
    apply negb_true_iff, vacia_false in Hf.
    split; [exact Hf|].
    split; [exact (int_no_negativo _ _ Ip) | exact (int_no_negativo _ _ Is)].
  - apply IH. now inversion Ha.
Qed.

(** ** What one command does to the memory *)

Lemma buscar_pais_vacio {U : Unicode} (o : ref -> pais) (cat : list ref)
    (consulta : str) :
  buscar_pais o cat consulta = [] ->
  Forall (fun r => ~ contiene (normalizar (nombre (o r))) (normalizar consulta))
         cat.
Proof.
  intros H. apply Forall_forall. intros r Hr Hc.
  now apply (buscar_pais_alguno o cat consulta r Hr Hc).
Qed.

(** A save that returns has written the whole snapshot. *)
Lemma guardar_y_decir_exito (x : mensaje) (m m' : mundo) :
  guardar_y_decir x m = (Ok tt, m') ->
  m' = con_salida (salida m ++ [x]) (con_archivo (Some (instantanea m)) m).
Proof.
  unfold guardar_y_decir. rewrite guardar_archivo_casos.
  destruct (escribible m);
    [destruct (antes_de_fallar _) | destruct (interrumpida m)];
    intros H; try discriminate. now injection H.
Qed.

Lemma agregar_pais_efecto {U : Unicode} (m m' : mundo) e w :
  agregar_pais (con_entorno e w m) = (Ok tt, m') -> efecto m m'.
Proof.
  intros H. rewrite agregar_pais_casos in H. reducir in H.
  destruct e as [|linea e1]; [discriminate|].
  destruct (vacia (strip linea)) eqn:Hn.
  { injection H as H. subst m'. now apply ef_nada. }
  destruct (vacia (buscar_pais _ _ _)) eqn:Hb; simpl negb in H.
  2:{ injection H as H. subst m'. now apply ef_nada. }
  destruct e1 as [|pob [|sup [|lc e4]]]; try discriminate.
  destruct (negb _ || _) eqn:Hv.
  { injection H as H. subst m'. now apply ef_nada. }
  destruct (int_ pob) as [p|] eqn:Hp; [|discriminate].
  destruct (int_ sup) as [s|] eqn:Hs; [|discriminate].
  apply guardar_y_decir_exito in H. subst m'.
  apply orb_false_iff in Hv. destruct Hv as [_ Hc].
  apply (ef_alta _ _ (Pais (strip linea) p s (strip lc))); try reflexivity.
  - unfold valido. simpl. repeat split.
    + now apply vacia_false.
    + exact (int_no_negativo _ _ Hp).
    + exact (int_no_negativo _ _ Hs).
    + exists (strip lc). split; [reflexivity | now apply vacia_false].
  - simpl. apply buscar_pais_vacio. now apply vacia_nil.
Qed.

Lemma actualizar_pais_efecto {U : Unicode} (m m' : mundo) e w :
  actualizar_pais (con_entorno e w m) = (Ok tt, m') -> efecto m m'.
Proof.
  intros H. rewrite actualizar_pais_casos in H. reducir in H.
  destruct e as [|consulta e1]; [discriminate|].
  destruct (buscar_pais _ _ _) as [|r enc] eqn:Hb.
  { injection H as H. subst m'. now apply ef_nada. }
  destruct e1 as [|pob [|sup e3]]; try discriminate.
  destruct (isdigit pob && isdigit sup).
  2:{ injection H as H. subst m'. now apply ef_nada. }
  destruct (int_ pob) as [p|] eqn:Hp; [|discriminate].
  destruct (int_ sup) as [s|] eqn:Hs; [|discriminate].
  apply guardar_y_decir_exito in H. subst m'.
  apply (ef_cambio _ _ r p s); try reflexivity.
  - assert (H : In r (buscar_pais (objetos m) (paises_catalogo m) consulta))
      by (rewrite Hb; now left).
    apply filter_In in H. tauto.
  - exact (int_no_negativo _ _ Hp).
  - exact (int_no_negativo _ _ Hs).
  - reducir. unfold tras_actualizar. reducir. now rewrite !poner_mismo.
  - intros r' Hr'. reducir. unfold tras_actualizar. reducir.
    now rewrite !poner_otro.
Qed.

(** ** The commands that only read *)

Lemma para_cada_imprimir (l : list ref) (m : mundo) :
  para_cada l imprimir m
  = (Ok tt, con_salida (salida m ++ map (fun p => Linea (objetos m p)) l) m).
Proof.
  revert m; induction l as [|x l IH]; intros m; simpl.
  - unfold ret. now rewrite con_salida_nada.
  - unfold bind, imprimir at 1. unfold bind, leer, print, modificar.
    rewrite IH. f_equal. unfold con_salida; simpl. now rewrite <- app_assoc.
Qed.




(** A command that only consults leaves objects, catalogue and file as they
    were, whatever its outcome. *)
Lemma consulta_intacto {U : Unicode} (q : consulta) (m : mundo) :
  intacto m (snd (ejecutar_consulta q m)).
Proof.
  unfold intacto.
  destruct q as [| | | | | | |asc|]; cbn [ejecutar_consulta].
  - unfold mostrar_catalogo, bind, leer. rewrite para_cada_imprimir.
    reducir. auto.
  - apply menu_buscar_intacto.
  - unfold filtrar_continente, bind, input, lanzar, leer, print, modificar.
    destruct (entrada m); reducir; [auto|].
    destruct (filtrados_continente _ _ _); reducir; auto.
  - unfold filtrar_poblacion, bind, input, lanzar, leer, print, modificar.
    destruct (entrada m) as [|l1 e1]; reducir; [auto|].
    destruct (int_texto l1); reducir; [|auto].
    destruct e1 as [|l2 e2]; reducir; [auto|].
    destruct (int_texto l2); reducir; auto.
  - unfold filtrar_superficie, bind, input, lanzar, leer, print, modificar.
    destruct (entrada m) as [|l1 e1]; reducir; [auto|].
    destruct (int_texto l1); reducir; [|auto].
    destruct e1 as [|l2 e2]; reducir; [auto|].
    destruct (int_texto l2); reducir; auto.
  - unfold ordenar_por_nombre, bind, leer. rewrite para_cada_imprimir.
    reducir. auto.
  - unfold ordenar_por_poblacion, bind, leer. rewrite para_cada_imprimir.
    reducir. auto.
  - unfold ordenar_por_superficie, bind, leer. rewrite para_cada_print.
    reducir. auto.
  - destruct (paises_catalogo m) as [|primero resto] eqn:Ec.
    + unfold estadisticas, bind, leer, print, modificar.
      rewrite Ec. reducir. auto.
    + rewrite (estadisticas_paso_a_paso m primero resto Ec).
      match goal with
      | |- context [match truediv ?a ?b with _ => _ end] =>
          destruct (truediv a b)
      end; [|reducir; auto].
      match goal with
      | |- context [match truediv ?a ?b with _ => _ end] =>
          destruct (truediv a b)
      end; reducir; auto.
Qed.

(** ** Invariants of a session *)

Lemma ejecutar_efecto {U : Unicode} (c : comando) (m m' : mundo) e w :
  ejecutar c (con_entorno e w m) = (Ok tt, m') -> efecto m m'.
Proof.
  destruct c as [| |q]; cbn [ejecutar]; intros H.
  - exact (agregar_pais_efecto _ _ _ _ H).
  - exact (actualizar_pais_efecto _ _ _ _ H).
  - pose proof (consulta_intacto q (con_entorno e w m)) as I.
    rewrite H in I. destruct I as [Io [Il [Ic _]]]. now apply ef_nada.
Qed.

Lemma formas_ext {U : Unicode} (o o' : ref -> pais) (cat : list ref) :
  (forall r, In r cat -> nombre (o' r) = nombre (o r)) ->
  formas o' cat = formas o cat.
Proof.
  intros H. unfold formas. apply map_ext_in. intros r Hr. now rewrite H.
Qed.

Lemma efecto_asignadas {U : Unicode} (m m' : mundo) :
  efecto m m' -> asignadas m -> asignadas m'.
Proof.
  unfold asignadas.
  intros [Ho Hl Hc | p _ _ Ho Hl Hc | r p s _ _ _ _ _ Hl Hc] Ha;
    rewrite Hl, Hc; try exact Ha.
  apply Forall_app. split.
  - revert Ha. apply Forall_impl. intros; lia.
  - repeat constructor.
Qed.

Lemma efecto_sin_duplicados {U : Unicode} (m m' : mundo) :
  efecto m m' -> asignadas m -> sin_duplicados m -> sin_duplicados m'.
Proof.
  unfold sin_duplicados, asignadas.
  intros [Ho Hl Hc | p _ Hno Ho Hl Hc | r p s Hr _ _ Hor Hot Hl Hc] Ha Hnd.
  - now rewrite Ho, Hc.
  - rewrite Ho, Hc. unfold formas. rewrite map_app. simpl.
    rewrite poner_mismo.
    replace (map (fun r => normalizar (nombre (poner (objetos m) (libre m) p r)))
                 (paises_catalogo m))
      with (formas (objetos m) (paises_catalogo m)).
    2:{ symmetry. apply formas_ext. intros r Hr.
        rewrite Forall_forall in Ha. specialize (Ha r Hr).
        rewrite poner_otro by lia. reflexivity. }
    apply NoDup_app; [exact Hnd | repeat constructor; intros [] |].
    intros a Hin [Heq | []]. subst a.
    unfold formas in Hin. apply in_map_iff in Hin.
    destruct Hin as [r [Heq Hr]].
    rewrite Forall_forall in Hno. apply (Hno r Hr).
    rewrite Heq. exists [], []. simpl. now rewrite app_nil_r.
  - rewrite Hc.
    rewrite (formas_ext (objetos m) (objetos m')); [exact Hnd|].
    intros r' _. destruct (Nat.eq_dec r' r) as [->|Hne].
    + now rewrite Hor.
    + now rewrite Hot.
Qed.

Lemma sesion_asignadas {U : Unicode} (m m' : mundo) :
  sesion m m' -> asignadas m -> asignadas m'.
Proof.
  induction 1 as [|m1 m2 c e w _ IH Hc]; intros Ha; [exact Ha|].
  apply (efecto_asignadas m1 m2 (ejecutar_efecto _ _ _ _ _ Hc)). now apply IH.
Qed.

Lemma sesion_uno {U : Unicode} (c : comando) (e : list str) (w : bool)
    (m : mundo) :
  fst (ejecutar c (con_entorno e w m)) = Ok tt ->
  sesion m (snd (ejecutar c (con_entorno e w m))).
Proof.
  intros H. apply (sesion_comando m m _ c e w (sesion_nada m)).
  destruct (ejecutar c (con_entorno e w m)) as [r mm]. simpl in *.
  now rewrite H.
Qed.

(** The catalogue of [m] is the one loaded, [cargados], followed by records
    added since; the former satisfy what loading checks, the latter the
    validation of [agregar_pais]. *)
Lemma efecto_validos {U : Unicode} (cargados : list ref) (m m' : mundo) :
  efecto m m' -> asignadas m ->
  (exists agregados,
      paises_catalogo m = cargados ++ agregados
      /\ Forall (fun r => valido_al_cargar (objetos m r)) cargados
      /\ Forall (fun r => valido (objetos m r)) agregados) ->
  exists agregados,
    paises_catalogo m' = cargados ++ agregados
    /\ Forall (fun r => valido_al_cargar (objetos m' r)) cargados
    /\ Forall (fun r => valido (objetos m' r)) agregados.
Proof.
  intros [Ho Hl Hc | p Hv _ Ho Hl Hc | r p s Hr Hp Hs Hor Hot Hl Hc] Ha
         [ag [Hcat [Hcar Hag]]].
  - exists ag. rewrite Ho, Hc. auto.
  - exists (ag ++ [libre m]). rewrite Hc, Hcat, Ho.
    unfold asignadas in Ha. rewrite Hcat in Ha.
    apply Forall_app in Ha. destruct Ha as [Ha1 Ha2].
    split; [now rewrite app_assoc|]. split.
    + rewrite Forall_forall in *. intros r Hr.
      rewrite poner_otro by (specialize (Ha1 r Hr); lia). now apply Hcar.
    + apply Forall_app. split.
      * rewrite Forall_forall in *. intros r Hr.
        rewrite poner_otro by (specialize (Ha2 r Hr); lia). now apply Hag.
      * constructor; [|constructor]. now rewrite poner_mismo.
  - exists ag. rewrite Hc.
    assert (K1 : forall r', valido_al_cargar (objetos m r') ->
                            valido_al_cargar (objetos m' r')).
    { intros r'. destruct (Nat.eq_dec r' r) as [->|Hne].
      - rewrite Hor. unfold valido_al_cargar. simpl. tauto.
      - now rewrite Hot. }
    assert (K2 : forall r', valido (objetos m r') -> valido (objetos m' r')).
    { intros r'. destruct (Nat.eq_dec r' r) as [->|Hne].
      - rewrite Hor. unfold valido. simpl. tauto.
      - now rewrite Hot. }
    split; [exact Hcat|]. split.
    + revert Hcar. apply Forall_impl. intros; now apply K1.
    + revert Hag. apply Forall_impl. intros; now apply K2.
Qed.

(** C2 (as amended).  When loading ends normally, the catalogue holds, in
    file order, exactly the rows that have a name that is not empty and a
    population and an area that pass [isdigit], each with its name and its
    continent as the file has them and its numbers converted; the other rows
    are dropped without a message.  In every later state of the session,
    whatever commands of the menu have run, the loaded records have a
    non-empty name and non-negative population and area (their continent is
    whatever the file had), and every record added since satisfies the full
    validation: non-empty name, non-negative population and area, non-empty
    continent. *)
Theorem registros_validados {U : Unicode} (m0 m1 : mundo) :
  menu_inicio m0 = (Ok tt, m1) ->
  Forall2 (cargada (cabecera_de m0))
          (filter (aceptada (cabecera_de m0)) (filas_de m0)) (registros m1)
  /\ forall m, sesion m1 m ->
       exists agregados,
         paises_catalogo m = paises_catalogo m1 ++ agregados
         /\ Forall (fun r => valido_al_cargar (objetos m r)) (paises_catalogo m1)
         /\ Forall (fun r => valido (objetos m r)) agregados.
Proof.
  intros H. destruct (menu_inicio_ok m0 m1 H) as [Hcar Hasig].
  split; [exact Hcar|].
  induction 1 as [|ma mb c e w Hs IH Hc].
  - exists []. rewrite app_nil_r. split; [reflexivity|]. split; [|constructor].
    apply cargada_valida in Hcar. unfold registros in Hcar.
    rewrite Forall_forall in *. intros r Hr. apply Hcar. now apply in_map.
  - apply (efecto_validos _ ma mb (ejecutar_efecto _ _ _ _ _ Hc)); [|exact IH].
    now apply (sesion_asignadas m1).
Qed.

(** C3 (as amended).  If the catalogue loaded at start-up has no two names
    with the same canonical form, no later state of the session has,
    whatever commands of the menu have run. *)
Theorem sin_duplicados_se_conserva {U : Unicode} (m0 m1 : mundo) :
  menu_inicio m0 = (Ok tt, m1) ->
  sin_duplicados m1 ->
  forall m, sesion m1 m -> sin_duplicados m.
Proof.
  intros H Hnd. destruct (menu_inicio_ok m0 m1 H) as [_ Hasig].
  induction 1 as [|ma mb c e w Hs IH Hc]; [exact Hnd|].
  apply (efecto_sin_duplicados ma mb (ejecutar_efecto _ _ _ _ _ Hc));
    [|exact IH].
  now apply (sesion_asignadas m1).
Qed.

(** A file with one good row, one without name and one whose population is
    not a number: the first is loaded, the others dropped. *)
Lemma registros_validados_witness :
  let America := de_ascii "America" in
  let filas := [Fila (de_ascii "Chile") (de_ascii "19") (de_ascii "756") America;
                Fila [] (de_ascii "1") (de_ascii "1") America;
                Fila (de_ascii "Peru") (de_ascii "x") (de_ascii "1") America] in
  let m0 := mundo_inicial (Some filas) true in
  let m1 := snd (@menu_inicio Latin1.tablas m0) in
  registros m1 = [Pais (de_ascii "Chile") 19 756 America]
  /\ Forall2 (@cargada Latin1.tablas cabecera)
             (filter (@aceptada Latin1.tablas cabecera) filas) (registros m1)
  /\ forall m, @sesion Latin1.tablas m1 m ->
       exists agregados,
         paises_catalogo m = paises_catalogo m1 ++ agregados
         /\ Forall (fun r => @valido_al_cargar (objetos m r))
                   (paises_catalogo m1)
         /\ Forall (fun r => valido (objetos m r)) agregados.
Proof.
  intros America filas m0 m1. split; [reflexivity|].
  apply (@registros_validados Latin1.tablas m0 m1). reflexivity.
Defined.

(** C2, the case it leaves out: a stored row with an empty continent is
    loaded as it is, so the catalogue holds a record that does not satisfy
    the validation. *)
Lemma cargar_continente_vacio :
  let m0 := mundo_inicial
              (Some [Fila (de_ascii "Chile") (de_ascii "19") (de_ascii "756") []])
              true in
  let m1 := snd (@menu_inicio Latin1.tablas m0) in
  fst (@menu_inicio Latin1.tablas m0) = Ok tt
  /\ registros m1 = [Pais (de_ascii "Chile") 19 756 []]
  /\ ~ Forall valido (registros m1).
Proof.
  intros m0 m1. split; [reflexivity|]. split; [reflexivity|].
  intros H. inversion H as [|p ps [_ [_ [_ [c [Ec Hc]]]]] _]; subst.
  injection Ec as <-. now apply Hc.
Qed.

(** Chile and Peru loaded, India added. *)
Lemma sin_duplicados_se_conserva_witness :
  let America := de_ascii "America" in
  let filas := [Fila (de_ascii "Chile") (de_ascii "19") (de_ascii "756") America;
                Fila Peru' (de_ascii "33") (de_ascii "1285") America] in
  let m0 := mundo_inicial (Some filas) true in
  let m1 := snd (@menu_inicio Latin1.tablas m0) in
  let e := [de_ascii "India"; de_ascii "1400"; de_ascii "3287"; de_ascii "Asia"] in
  let m2 := snd (@ejecutar Latin1.tablas Agregar (con_entorno e true m1)) in
  map nombre (registros m2) = [de_ascii "Chile"; Peru'; de_ascii "India"]
  /\ @sin_duplicados Latin1.tablas m2.
Proof.
  intros America filas m0 m1 e m2. split; [reflexivity|].
  apply (@sin_duplicados_se_conserva Latin1.tablas m0 m1 eq_refl).
  - unfold sin_duplicados. vm_compute.
    constructor; [intros [H | []]; discriminate H|].
    constructor; [intros []|constructor].
  - apply (@sesion_uno Latin1.tablas). vm_compute. reflexivity.
Defined.

(** C3, the case it leaves out: loading does not compare names.  A file that
    stores "Perú" and "peru" yields a catalogue with both, two records of
    canonical form "peru". *)
Lemma cargar_duplicados :
  let America := de_ascii "America" in
  let m0 := mundo_inicial
              (Some [Fila Peru' (de_ascii "33") (de_ascii "1285") America;
                     Fila (de_ascii "peru") (de_ascii "1") (de_ascii "1") America])
              true in
  let m1 := snd (@menu_inicio Latin1.tablas m0) in
  fst (@menu_inicio Latin1.tablas m0) = Ok tt
  /\ map nombre (registros m1) = [Peru'; de_ascii "peru"]
  /\ ~ @sin_duplicados Latin1.tablas m1.
Proof.
  intros America m0 m1. split; [reflexivity|]. split; [reflexivity|].
  unfold sin_duplicados. intros H. vm_compute in H.
  inversion H as [|x l Hn _]; subst. apply Hn. now left.
Qed.

(** ** Normalization and surrounding blanks *)

Lemma lstrip_descompone {U : Unicode} (s : str) :
  exists ws, s = ws ++ lstrip s /\ Forall (fun c => isspace c = true) ws.
Proof.
  induction s as [|c s [ws [Hs Hws]]]; simpl.
  - exists []. split; [reflexivity | constructor].
  - destruct (isspace c) eqn:Ec.
    + exists (c :: ws). simpl. split; [now rewrite <- Hs | now constructor].
    + exists []. split; [reflexivity | constructor].
Qed.

Lemma lstrip_largo {U : Unicode} (s : str) :
  (length (lstrip s) <= length s)%nat.
Proof.
  induction s as [|c s IH]; simpl; [lia|].
  destruct (isspace c); simpl; lia.
Qed.

Lemma lstrip_lstrip {U : Unicode} (s : str) : lstrip (lstrip s) = lstrip s.
Proof.
  induction s as [|c s IH]; simpl; [reflexivity|].
  destruct (isspace c) eqn:Ec; [exact IH|]. simpl. now rewrite Ec.
Qed.

Lemma lstrip_fijo_cabeza {U : Unicode} (c : N) (s : str) :
  lstrip (c :: s) = c :: s -> isspace c = false.
Proof.
  simpl. destruct (isspace c); [|reflexivity].
  intros H. pose proof (lstrip_largo s) as L. rewrite H in L. simpl in L. lia.
Qed.

(** Trimming the right end of a text without leading blanks leaves it without
    leading blanks. *)
Lemma lstrip_tras_recorte {U : Unicode} (t : str) :
  lstrip t = t ->
  lstrip (rev (lstrip (rev t))) = rev (lstrip (rev t)).
Proof.
  intros Ht. destruct (lstrip_descompone (rev t)) as [ws [Hrev _]].
  assert (Et : t = rev (lstrip (rev t)) ++ rev ws).
  { rewrite <- rev_app_distr, <- Hrev. now rewrite rev_involutive. }
  destruct (rev (lstrip (rev t))) as [|c r]; [reflexivity|].
  rewrite Et in Ht. simpl app in Ht.
  apply lstrip_fijo_cabeza in Ht. simpl. now rewrite Ht.
Qed.

Lemma strip_strip {U : Unicode} (s : str) : strip (strip s) = strip s.
Proof.
  unfold strip.
  rewrite (lstrip_tras_recorte (lstrip s) (lstrip_lstrip s)).
  rewrite rev_involutive. now rewrite lstrip_lstrip.
Qed.

(** X1.  Blanks around a text do not count: trimming is idempotent, a text
    and its trimmed form have the same normal form, and so a search or a
    continent filter gives the same records for a query typed with or without
    surrounding blanks. *)
Theorem normalizar_ignora_blancos_externos {U : Unicode} (s : str) :
  strip (strip s) = strip s
  /\ normalizar (strip s) = normalizar s
  /\ (forall o cat, buscar_pais o cat (strip s) = buscar_pais o cat s)
  /\ (forall o cat,
        filtrados_continente o cat (strip s) = filtrados_continente o cat s).
Proof.
  assert (H : normalizar (strip s) = normalizar s).
  { unfold normalizar. now rewrite strip_strip. }
  split; [apply strip_strip|]. split; [exact H|]. split.
  - intros o cat. unfold buscar_pais. now rewrite H.
  - intros o cat. induction cat as [|p cat IH]; [reflexivity|].
    cbn [filtrados_continente]. now rewrite IH, H.
Qed.

(** ** Narrowing a search *)

Lemma contiene_trans (a b c : str) :
  contiene b a -> contiene c b -> contiene c a.
Proof.
  intros [p1 [q1 H1]] [p2 [q2 H2]]. exists (p2 ++ p1), (q1 ++ q2).
  rewrite H2, H1. now rewrite <- !app_assoc.
Qed.

(** X2.  A longer query narrows the search: when the normal form of [q1]
    occurs in the normal form of [q2], searching [q2] in the result of
    searching [q1] is the same as searching [q2] in the whole catalogue, so
    every record found for [q2] is found for [q1]. *)
Theorem buscar_pais_refina {U : Unicode}
    (o : ref -> pais) (cat : list ref) (q1 q2 : str) :
  contiene (normalizar q2) (normalizar q1) ->
  buscar_pais o (buscar_pais o cat q1) q2 = buscar_pais o cat q2
  /\ incl (buscar_pais o cat q2) (buscar_pais o cat q1).
Proof.
  intros Hq.
  assert (K : forall r, coincide o q2 r = true -> coincide o q1 r = true).
  { intros r H. apply coincide_contiene. apply coincide_contiene in H.
    exact (contiene_trans _ _ _ Hq H). }
  split.
  - unfold buscar_pais. induction cat as [|r cat IH]; [reflexivity|].
    simpl. fold (coincide o q1 r). fold (coincide o q2 r).
    destruct (coincide o q1 r) eqn:E1; simpl; fold (coincide o q2 r).
    + destruct (coincide o q2 r); [now rewrite IH | exact IH].
    + destruct (coincide o q2 r) eqn:E2; [|exact IH].
      apply K in E2. congruence.
  - intros r Hr. unfold buscar_pais in *. apply filter_In in Hr.
    apply filter_In. split; [tauto|]. apply (K r). tauto.
Qed.

(** "ind" and then "india" among Chile, India and Indiana. *)
Lemma buscar_pais_refina_witness :
  let ps := [Pais (de_ascii "Chile") 19 756 (de_ascii "America");
             Pais (de_ascii "India") 1400 3287 (de_ascii "Asia");
             Pais (de_ascii "Indiana") 6 94 (de_ascii "America")] in
  let o := fun r => nth r ps pais_vacio in
  @buscar_pais Latin1.tablas o
    (@buscar_pais Latin1.tablas o [0; 1; 2]%nat (de_ascii "ind"))
    (de_ascii "India")
  = @buscar_pais Latin1.tablas o [0; 1; 2]%nat (de_ascii "India")
  /\ incl (@buscar_pais Latin1.tablas o [0; 1; 2]%nat (de_ascii "India"))
          (@buscar_pais Latin1.tablas o [0; 1; 2]%nat (de_ascii "ind")).
Proof.
  intros ps o.
  apply (@buscar_pais_refina Latin1.tablas o [0; 1; 2]%nat
           (de_ascii "ind") (de_ascii "India")).
  exists [], (de_ascii "ia"). reflexivity.
Defined.

(** ** What the commands that only read can raise *)


(** ** The continent filter *)

(** The comprehension of [filtrar_continente]: the filter of the catalogue
    when every record has a continent, [AttributeError] otherwise. *)
Lemma filtrados_continente_casos {U : Unicode} (o : ref -> pais)
    (cat : list ref) (cont : str) :
  filtrados_continente o cat cont
  = if forallb (fun r => match continente (o r) with
                         | Some _ => true
                         | None => false
                         end) cat
    then Ok (filter (fun r => match continente (o r) with
                              | Some c => str_eqb (normalizar cont) (normalizar c)
                              | None => false
                              end) cat)
    else Raise AttributeError.
Proof.
  induction cat as [|p cat IH]; cbn [filtrados_continente forallb filter];
    [reflexivity|].
  destruct (continente (o p)) as [c|]; [|reflexivity]. rewrite IH.
  cbn [andb]. destruct (forallb _ cat); [|reflexivity].
  now destruct (str_eqb _ _).
Qed.

(** X4.  [filtrar_continente] reads one line and selects, in catalogue order,
    exactly the records whose continent has the same normal form as the line:
    the whole continent must match, not a part of it as in the search.  It
    prints the selection, or that no country was found when the selection is
    empty; any other query with the same normal form selects the same
    records; and without a line to read it raises the end of input and prints
    nothing.  When some record of the catalogue has no continent (it was
    loaded from a row of three fields), the filter raises [AttributeError]
    instead, whatever the line. *)
Theorem filtrar_continente_exacto {U : Unicode} (m : mundo) :
  let o := objetos m in
  let cat := paises_catalogo m in
  (forall cont sel,
      filtrados_continente o cat cont = Ok sel ->
      forall r, In r sel
                <-> In r cat
                    /\ exists c, continente (o r) = Some c
                                 /\ normalizar c = normalizar cont)
  /\ (forall cont,
        (Forall (fun r => continente (o r) <> None) cat ->
         filtrados_continente o cat cont
         = Ok (filter (fun r => match continente (o r) with
                                | Some c =>
                                    str_eqb (normalizar cont) (normalizar c)
                                | None => false
                                end) cat))
        /\ (~ Forall (fun r => continente (o r) <> None) cat ->
            filtrados_continente o cat cont = Raise AttributeError))
  /\ (forall cont cont',
        normalizar cont' = normalizar cont ->
        filtrados_continente o cat cont' = filtrados_continente o cat cont)
  /\ (forall cont e1,
        entrada m = cont :: e1 ->
        filtrar_continente m
        = match filtrados_continente o cat cont with
          | Ok sel =>
              (Ok tt,
               con_salida
                 (salida m ++
                  [match sel with
                   | [] => NingunPaisEncontrado
                   | _ :: _ => Lista (map o sel)
                   end])
                 (con_entrada e1 m))
          | Raise e => (Raise e, con_entrada e1 m)
          end)
  /\ (entrada m = [] -> filtrar_continente m = (Raise EOFError, m)).
Proof.
  intros o cat.
  assert (F : Forall (fun r => continente (o r) <> None) cat
              <-> forallb (fun r => match continente (o r) with
                                    | Some _ => true
                                    | None => false
                                    end) cat = true).
  { rewrite forallb_forall, Forall_forall. split; intros H r Hr.
    - specialize (H r Hr). now destruct (continente (o r)).
    - specialize (H r Hr). now destruct (continente (o r)). }
  split; [|split; [|split; [|split]]].
  - intros cont sel H r. rewrite filtrados_continente_casos in H.
    destruct (forallb _ cat); [|discriminate]. injection H as <-.
    rewrite filter_In. split.
    + intros [Hr Hc]. split; [exact Hr|].
      destruct (continente (o r)) as [c|]; [|discriminate].
      exists c. split; [reflexivity|]. apply str_eqb_eq in Hc. congruence.
    + intros [Hr [c [Ec Hc]]]. split; [exact Hr|]. rewrite Ec.
      apply str_eqb_eq. congruence.
  - intros cont. split; intros H; rewrite filtrados_continente_casos.
    + apply F in H. now rewrite H.
    + destruct (forallb _ cat) eqn:E; [|reflexivity].
      exfalso. apply H. now apply F.
  - intros cont cont' H. rewrite !filtrados_continente_casos. now rewrite H.
  - intros cont e1 He.
    unfold filtrar_continente, bind, input, lanzar, leer, print, modificar.
    rewrite He. reducir. fold o cat.
    destruct (filtrados_continente o cat cont) as [sel|e]; [|reflexivity].
    now destruct sel.
  - intros He. unfold filtrar_continente, bind, input. now rewrite He.
Qed.

(** "america" selects the record of continent "América"; "Amer" selects
    nothing. *)
Lemma filtrar_continente_exacto_witness :
  let America' := [65; 109; 233; 114; 105; 99; 97]%N in
  let Chile := Pais (de_ascii "Chile") 19 756 America' in
  let India := Pais (de_ascii "India") 1400 3287 (de_ascii "Asia") in
  (@filtrar_continente Latin1.tablas
     (mundo_de [Chile; India] [de_ascii "america"] true)
   = (Ok tt, con_salida [Lista [Chile]]
               (con_entrada [] (mundo_de [Chile; India] [de_ascii "america"] true))))
  /\ (@filtrar_continente Latin1.tablas
        (mundo_de [Chile; India] [de_ascii "Amer"] true)
      = (Ok tt, con_salida [NingunPaisEncontrado]
                  (con_entrada [] (mundo_de [Chile; India] [de_ascii "Amer"] true)))).
Proof.
  intros America' Chile India. split.
  - apply (proj1 (proj2 (proj2 (proj2
      (@filtrar_continente_exacto Latin1.tablas
         (mundo_de [Chile; India] [de_ascii "america"] true)))))
      (de_ascii "america") [] eq_refl).
  - apply (proj1 (proj2 (proj2 (proj2
      (@filtrar_continente_exacto Latin1.tablas
         (mundo_de [Chile; India] [de_ascii "Amer"] true)))))
      (de_ascii "Amer") [] eq_refl).
Defined.

(** ** Sorting by population *)

(** X5.  [ordenar_por_poblacion] prints the whole catalogue rearranged in
    non-decreasing order of population, records of equal population in the
    order the catalogue has them, and leaves the catalogue as it is. *)
Theorem ordenar_por_poblacion_estable (m : mundo) :
  let o := objetos m in
  let cat := paises_catalogo m in
  let res := sorted (clave_poblacion o) false cat in
  ordenar_por_poblacion m
    = (Ok tt, con_salida (salida m ++ map (fun p => Linea (o p)) res) m)
  /\ Permutation cat res
  /\ StronglySorted (fun a b => poblacion (o a) <= poblacion (o b)) res
  /\ (forall k, con_clave (clave_poblacion o) k res
                = con_clave (clave_poblacion o) k cat).
Proof.
  intros o cat res. split; [|split; [|split]].
  - unfold ordenar_por_poblacion, bind, leer. apply para_cada_imprimir.
  - apply sorted_perm.
  - apply (ordenar_creciente (clave_poblacion o)).
  - intros k. apply sorted_con_clave.
Qed.

(** ** Sorting by name *)

Lemma str_ltb_irrefl (a : str) : str_ltb a a = false.
Proof.
  induction a as [|x a IH]; [reflexivity|]. simpl.
  now rewrite N.ltb_irrefl, N.eqb_refl, IH.
Qed.

Lemma str_ltb_cons (x y : N) (a b : str) :
  str_ltb (x :: a) (y :: b) = true
  <-> (x < y)%N \/ (x = y /\ str_ltb a b = true).
Proof.
  simpl. rewrite orb_true_iff, andb_true_iff, N.ltb_lt, N.eqb_eq. tauto.
Qed.

Lemma str_ltb_asim (a b : str) : str_ltb a b = true -> str_ltb b a = false.
Proof.
  revert b; induction a as [|x a IH]; intros [|y b] H; try reflexivity;
    try discriminate.
  apply str_ltb_cons in H.
  destruct (str_ltb (y :: b) (x :: a)) eqn:E; [|reflexivity].
  apply str_ltb_cons in E.
  destruct H as [H | [-> H]], E as [E | [E1 E]]; try lia.
  apply IH in H. congruence.
Qed.

(** If [a < c], any [b] is above [a] or below [c]. *)
Lemma str_ltb_entre (a b c : str) :
  str_ltb a c = true -> str_ltb a b = true \/ str_ltb b c = true.
Proof.
  revert b c; induction a as [|x a IH]; intros [|y b] [|z c] H;
    try discriminate; try (now left); try (now right).
  apply str_ltb_cons in H. rewrite !str_ltb_cons.
  destruct (N.lt_trichotomy x y) as [Hxy | [-> | Hxy]]; [tauto| |].
  - destruct H as [H | [-> H]]; [tauto|].
    destruct (IH b c H); tauto.
  - destruct H as [H | [-> H]]; right; left; lia.
Qed.

Section OrdenarPorNombre.
Context {A : Type}.
Variable key : A -> str.

Lemma insertar_por_perm (x : A) (l : list A) :
  Permutation (x :: l) (insertar_por str_ltb key x l).
Proof.
  induction l as [|y l IH]; simpl; [reflexivity|].
  destruct (str_ltb (key y) (key x)); [|reflexivity].
  rewrite perm_swap. now constructor.
Qed.

Lemma ordenar_por_perm (l : list A) :
  Permutation l (ordenar_por str_ltb key l).
Proof.
  induction l as [|x l IH]; simpl; [constructor|].
  rewrite <- insertar_por_perm. now constructor.
Qed.

Lemma insertar_por_creciente (x : A) (l : list A) :
  StronglySorted (fun a b => str_ltb (key b) (key a) = false) l ->
  StronglySorted (fun a b => str_ltb (key b) (key a) = false)
                 (insertar_por str_ltb key x l).
Proof.
  induction 1 as [|y l Hs IH Hy]; simpl.
  - repeat constructor.
  - destruct (str_ltb (key y) (key x)) eqn:E.
    + constructor; [exact IH|].
      rewrite <- insertar_por_perm. constructor; [|exact Hy].
      now apply str_ltb_asim.
    + constructor; [now constructor|].
      constructor; [exact E|].
      revert Hy. apply Forall_impl. intros z Hz.
      destruct (str_ltb (key z) (key x)) eqn:Ez; [|reflexivity].
      destruct (str_ltb_entre _ (key y) _ Ez); congruence.
Qed.

Lemma ordenar_por_creciente (l : list A) :
  StronglySorted (fun a b => str_ltb (key b) (key a) = false)
                 (ordenar_por str_ltb key l).
Proof.
  induction l as [|x l IH]; simpl; [constructor|].
  now apply insertar_por_creciente.
Qed.

Lemma insertar_por_estable (k : str) (x : A) (l : list A) :
  filter (fun a => str_eqb (key a) k) (insertar_por str_ltb key x l)
  = filter (fun a => str_eqb (key a) k) (x :: l).
Proof.
  induction l as [|y l IH]; [reflexivity|].
  simpl insertar_por. destruct (str_ltb (key y) (key x)) eqn:E; [|reflexivity].
  simpl in *. rewrite IH.
  destruct (str_eqb (key x) k) eqn:Ex, (str_eqb (key y) k) eqn:Ey;
    try reflexivity.
  apply str_eqb_eq in Ex, Ey. rewrite Ex, Ey, str_ltb_irrefl in E.
  discriminate.
Qed.

Lemma ordenar_por_estable (k : str) (l : list A) :
  filter (fun a => str_eqb (key a) k) (ordenar_por str_ltb key l)
  = filter (fun a => str_eqb (key a) k) l.
Proof.
  induction l as [|x l IH]; [reflexivity|].
  simpl ordenar_por. rewrite insertar_por_estable. simpl. now rewrite IH.
Qed.

End OrdenarPorNombre.

(** X6.  [ordenar_por_nombre] prints the whole catalogue rearranged so that
    no name is smaller than one printed before it, names being compared as
    stored, code point by code point (capitals before small letters, accented
    letters after both); records with the same name stay in catalogue order.
    With Zambia, argentina and Ángola the listing is in that order. *)
Theorem ordenar_por_nombre_estable (m : mundo) :
  let o := objetos m in
  let cat := paises_catalogo m in
  let res := sorted_por str_ltb (clave_nombre o) false cat in
  ordenar_por_nombre m
    = (Ok tt, con_salida (salida m ++ map (fun p => Linea (o p)) res) m)
  /\ Permutation cat res
  /\ StronglySorted
       (fun a b => str_ltb (nombre (o b)) (nombre (o a)) = false) res
  /\ (forall k, filter (fun p => str_eqb (nombre (o p)) k) res
                = filter (fun p => str_eqb (nombre (o p)) k) cat)
  /\ (let X := de_ascii "X" in
      let ps := [Pais ([193%N] ++ de_ascii "ngola") 1 1 X;
                 Pais (de_ascii "argentina") 1 1 X;
                 Pais (de_ascii "Zambia") 1 1 X] in
      map nombre
          (map (fun r => nth r ps pais_vacio)
               (sorted_por str_ltb (clave_nombre (fun r => nth r ps pais_vacio))
                           false [0; 1; 2]%nat))
      = [de_ascii "Zambia"; de_ascii "argentina";
         [193%N] ++ de_ascii "ngola"]).
Proof.
  intros o cat res. split; [|split; [|split; [|split]]].
  - unfold ordenar_por_nombre, bind, leer. apply para_cada_imprimir.
  - apply ordenar_por_perm.
  - apply (ordenar_por_creciente (clave_nombre o)).
  - intros k. apply (ordenar_por_estable (clave_nombre o)).
  - reflexivity.
Qed.

(** ** Loading, whatever the file holds *)

(** Loading touches neither the file nor what has been typed or printed,
    whatever its outcome. *)
Lemma leer_filas_marco {U : Unicode} (fn : fila) (fin : option excepcion)
    (filas : list fila) :
  forall (acc : list ref) (m : mundo),
    let m' := snd (leer_filas fn filas fin acc m) in
    archivo m' = archivo m /\ paises_catalogo m' = paises_catalogo m
    /\ salida m' = salida m /\ entrada m' = entrada m.
Proof.
  induction filas as [|row resto IH]; intros acc m.
  - cbn [leer_filas]. destruct fin; cbn; auto.
  - cbn [leer_filas].
    destruct (existsb campo_excesivo row); [cbn; auto|].
    destruct (vacia row); [apply IH|].
    unfold bind, lanzar, nuevo.
    destruct (fila_aceptada (valor_fila fn row)) as [[[[n p] s]|]|e];
      [|apply IH|cbn; auto].
    destruct (int_ p); [|cbn; auto].
    destruct (int_ s); [|cbn; auto].
    destruct (valor_fila fn row (de_ascii "continente")); [|cbn; auto].
    match goal with
    | |- context [leer_filas fn resto fin ?a ?w] => pose proof (IH a w) as K
    end.
    cbv zeta in K. exact K.
Qed.

(** The four columns of the program's header. *)
Lemma valor_fila_cabecera (row : fila) :
  valor_fila cabecera row (de_ascii "nombre") = Ok (hd_error row)
  /\ valor_fila cabecera row (de_ascii "poblacion") = Ok (hd_error (tl row))
  /\ valor_fila cabecera row (de_ascii "superficie")
     = Ok (hd_error (tl (tl row)))
  /\ valor_fila cabecera row (de_ascii "continente")
     = Ok (hd_error (tl (tl (tl row)))).
Proof. repeat split; reflexivity. Qed.

(** One turn of the loop under the program's header. *)
Lemma leer_filas_cons {U : Unicode} (row : fila) (resto : list fila)
    (fin : option excepcion) (acc : list ref) (m : mundo) :
  leer_filas cabecera (row :: resto) fin acc m =
  match destino_fila row with
  | Raise e => (Raise e, m)
  | Ok None => leer_filas cabecera resto fin acc m
  | Ok (Some p) =>
      leer_filas cabecera resto fin (acc ++ [libre m])
        (con_libre (S (libre m))
           (con_objetos (poner (objetos m) (libre m) p) m))
  end.
Proof.
  cbn [leer_filas]. unfold destino_fila.
  destruct (existsb campo_excesivo row); [reflexivity|].
  destruct row as [|n resto1]; [reflexivity|]. cbn [vacia].
  unfold bind, lanzar, nuevo, fila_aceptada.
  destruct (valor_fila_cabecera (n :: resto1)) as (E1 & E2 & E3 & E4).
  rewrite E1, E2, E3, E4. cbn [hd_error tl].
  destruct (vacia n); [reflexivity|].
  destruct resto1 as [|p resto2]; cbn [hd_error tl]; [reflexivity|].
  destruct (isdigit p); cbn [negb]; [|reflexivity].
  destruct resto2 as [|s resto3]; cbn [hd_error tl]; [reflexivity|].
  destruct (isdigit s); cbn [negb]; [|reflexivity].
  destruct (int_ p) as [vp|e] eqn:Ep.
  2:{ apply int_error in Ep. now subst e. }
  destruct (int_ s) as [vs|e] eqn:Es.
  2:{ apply int_error in Es. now subst e. }
  reflexivity.
Qed.

(** The loop under the program's header does what [destino_filas] says. *)
Lemma leer_filas_destino {U : Unicode} (fin : option excepcion)
    (filas : list fila) :
  forall (acc : list ref) (m : mundo),
    match destino_filas filas fin with
    | Ok ps =>
        exists cat m',
          leer_filas cabecera filas fin acc m = (Ok cat, m')
          /\ exists nuevos,
               cat = acc ++ nuevos
               /\ nuevos = seq (libre m) (length ps)
               /\ map (objetos m') nuevos = ps
               /\ (forall r, (r < libre m)%nat -> objetos m' r = objetos m r)
    | Raise e => fst (leer_filas cabecera filas fin acc m) = Raise e
    end.
Proof.
  induction filas as [|row resto IH]; intros acc m.
  - cbn [destino_filas leer_filas]. destruct fin as [e|]; [reflexivity|].
    exists acc, m. split; [reflexivity|]. exists [].
    rewrite app_nil_r. repeat split.
  - rewrite leer_filas_cons. cbn [destino_filas].
    destruct (destino_fila row) as [[p|]|e]; [| |reflexivity].
    + match goal with
      | |- context [leer_filas cabecera resto fin ?a ?w] =>
          pose proof (IH a w) as K
      end.
      destruct (destino_filas resto fin) as [ps|e]; [|exact K].
      destruct K as (cat & m' & L & nuevos & Hcat & Hseq & Hmap & Hobj).
      reducir in Hseq. reducir in Hobj.
      exists cat, m'. split; [exact L|]. exists (libre m :: nuevos).
      split; [now rewrite Hcat, <- app_assoc|].
      split; [cbn [length seq]; now rewrite <- Hseq|].
      split.
      * cbn [map]. rewrite Hmap, Hobj by lia. now rewrite poner_mismo.
      * intros r Hr. rewrite Hobj by lia. apply poner_otro. lia.
    + pose proof (IH acc m) as K.
      destruct (destino_filas resto fin) as [ps|e]; exact K.
Qed.

Lemma leer_archivo_con_cabecera {U : Unicode} (m : mundo)
    (filas : list fila) (fin : option excepcion) :
  archivo m = Some (Contenido (cabecera :: filas) fin) ->
  leer_archivo m = leer_filas cabecera filas fin [] m.
Proof.
  intros Ha. unfold leer_archivo, crear_sino_existe, bind, leer, ret.
  rewrite Ha. reducir. rewrite Ha. cbn [filas_csv ilegible].
  now change (existsb campo_excesivo cabecera) with false.
Qed.

(** X7.  What loading does with a file that has the program's header is
    decided row by row, by the fields each row has: a blank row, a row whose
    name is empty, and a row whose population or area [isdigit] rejects are
    dropped; a row with a name and no population, or with a population of
    digits and no area, raises [AttributeError]; a row of three fields is
    loaded without continent; a numeral that [isdigit] accepts and [int]
    does not raises [ValueError]; a field beyond the limit of the csv reader
    raises its error.  The first row that raises ends the loading; otherwise
    the catalogue holds the records of the rows kept, in order, unless the
    reader fails after them.  Either way loading prints nothing and leaves
    the file as it was. *)
Theorem leer_archivo_resultado {U : Unicode} (m : mundo) (filas : list fila)
    (fin : option excepcion) :
  archivo m = Some (Contenido (cabecera :: filas) fin) ->
  match destino_filas filas fin with
  | Ok ps =>
      exists cat m', leer_archivo m = (Ok cat, m')
                     /\ map (objetos m') cat = ps
  | Raise e => fst (leer_archivo m) = Raise e
  end
  /\ archivo (snd (leer_archivo m)) = archivo m
  /\ salida (snd (leer_archivo m)) = salida m.
Proof.
  intros Ha. rewrite (leer_archivo_con_cabecera m filas fin Ha).
  destruct (leer_filas_marco cabecera fin filas [] m) as [K1 [_ [K3 _]]].
  split; [|split; [exact K1 | exact K3]].
  pose proof (leer_filas_destino fin filas [] m) as D.
  destruct (destino_filas filas fin) as [ps|e]; [|exact D].
  destruct D as (cat & m' & L & nuevos & Hcat & _ & Hmap & _).
  exists cat, m'. split; [exact L|]. now rewrite Hcat.
Qed.

(** A row whose population is a superscript two; a row that has only a
    name; a row of three fields. *)
Lemma leer_archivo_resultado_witness :
  (let filas := [Fila (de_ascii "Chile") [178%N] (de_ascii "756")
                      (de_ascii "America")] in
   fst (@leer_archivo Latin1.tablas (mundo_inicial (Some filas) true))
   = Raise ValueError)
  /\ (let filas := [[de_ascii "Chile"]] in
      fst (@leer_archivo Latin1.tablas (mundo_inicial (Some filas) true))
      = Raise AttributeError)
  /\ (let filas := [[de_ascii "Chile"; de_ascii "19"; de_ascii "756"]] in
      exists cat m',
        @leer_archivo Latin1.tablas (mundo_inicial (Some filas) true)
        = (Ok cat, m')
        /\ map (objetos m') cat
           = [Registro (de_ascii "Chile") 19 756 None]).
Proof.
  split; [|split]; intros filas.
  - exact (proj1 (@leer_archivo_resultado Latin1.tablas
                    (mundo_inicial (Some filas) true) filas None eq_refl)).
  - exact (proj1 (@leer_archivo_resultado Latin1.tablas
                    (mundo_inicial (Some filas) true) filas None eq_refl)).
  - exact (proj1 (@leer_archivo_resultado Latin1.tablas
                    (mundo_inicial (Some filas) true) filas None eq_refl)).
Defined.

(** X8.  Without a file, loading creates one that holds only the header and
    returns an empty catalogue when the file can be written, and raises the
    error of the file system otherwise, leaving everything as it was when
    the file could not be created, and the file with what the interrupted
    write of the header left when it could. *)
Theorem leer_archivo_sin_archivo {U : Unicode} (m : mundo) :
  archivo m = None ->
  (escribible m = true ->
   leer_archivo m
   = (Ok [], con_archivo (Some (Contenido [cabecera] None)) m))
  /\ (escribible m = false ->
      leer_archivo m
      = (Raise OSError,
         match interrumpida m with
         | None => m
         | Some c => con_archivo (Some c) m
         end)).
Proof.
  intros Ha. unfold leer_archivo, crear_sino_existe, escribir, bind, leer,
    modificar, raise, ret.
  rewrite Ha. split; intros Hw; rewrite Hw.
  - reflexivity.
  - now destruct (interrumpida m).
Qed.

(** A first run, in a directory that can be written. *)
Lemma leer_archivo_sin_archivo_witness :
  @leer_archivo Latin1.tablas (mundo_inicial None true)
  = (Ok [], con_archivo (Some (Contenido [cabecera] None))
                        (mundo_inicial None true)).
Proof.
  apply (proj1 (@leer_archivo_sin_archivo Latin1.tablas
                  (mundo_inicial None true) eq_refl)).
  reflexivity.
Defined.

(** ** Saving and loading back *)

Lemma int_desde_cifras_pos {U : Unicode} (H : digitos_ascii) (d : Decimal.uint) :
  forall p, int_desde (Zpos p) (cifras d) = Ok (Zpos (Pos.of_uint_acc d p)).
Proof.
  induction d as [|d IH|d IH|d IH|d IH|d IH|d IH|d IH|d IH|d IH|d IH];
    intros p; cbn [cifras int_desde Pos.of_uint_acc]; [reflexivity|..];
    match goal with
    | |- context [decimal ?c] =>
        let E := fresh in
        destruct (H c ltac:(lia)) as [_ E]; rewrite E
    end;
    rewrite <- IH; f_equal; lia.
Qed.

Lemma int_desde_cifras {U : Unicode} (H : digitos_ascii) (d : Decimal.uint) :
  int_desde 0 (cifras d) = Ok (Z.of_N (Pos.of_uint d)).
Proof.
  induction d as [|d IH|d IH|d IH|d IH|d IH|d IH|d IH|d IH|d IH|d IH];
    cbn [cifras int_desde Pos.of_uint]; [reflexivity|..];
    match goal with
    | |- context [decimal ?c] =>
        let E := fresh in
        destruct (H c ltac:(lia)) as [_ E]; rewrite E
    end;
    [exact IH | ..];
    apply (int_desde_cifras_pos H).
Qed.

(** The numeral that [guardar_archivo] writes for a number that is not
    negative is accepted by [isdigit] and read back by [int] as the same
    number. *)
Lemma int_str_de_int {U : Unicode} (H : digitos_ascii) (z : Z) :
  0 <= z -> cabe z ->
  isdigit (str_de_int z) = true /\ int_ (str_de_int z) = Ok z.
Proof.
  intros Hz Hc.
  assert (Hd : exists d, str_de_int z = cifras d /\ d <> Decimal.Nil
                         /\ Z.of_N (Pos.of_uint d) = z).
  { unfold str_de_int. destruct z as [|p|p]; [| |lia].
    - exists (Decimal.D0 Decimal.Nil). repeat split. discriminate.
    - exists (Pos.to_uint p). split; [reflexivity|].
      split; [apply DecimalPos.Unsigned.to_uint_nonnil|].
      now rewrite DecimalPos.Unsigned.of_to. }
  destruct Hd as [d [Es [Hnil Hv]]].
  assert (Hne : vacia (str_de_int z) = false).
  { rewrite Es. destruct d; simpl; congruence. }
  split.
  - unfold isdigit. rewrite Hne. simpl. rewrite Es.
    apply forallb_forall. intros c Hc'.
    pose proof (cifras_rango d) as R. rewrite Forall_forall in R.
    exact (proj1 (H c (R c Hc'))).
  - unfold int_. rewrite Hne.
    assert (Hl : negb (Nat.eqb int_max_str_digits 0)
                 && Nat.ltb int_max_str_digits (length (str_de_int z)) = false).
    { destruct Hc as [Hc | Hc].
      - rewrite Hc. reflexivity.
      - apply andb_false_iff. right. apply Nat.ltb_ge. exact Hc. }
    rewrite Hl, Es, (int_desde_cifras H). now rewrite Hv.
Qed.

(** The row written for a record that can be recovered is read back as that
    record. *)
Lemma destino_fila_de_pais {U : Unicode} (H : digitos_ascii) (p : pais) :
  recuperable p -> destino_fila (fila_de_pais p) = Ok (Some p).
Proof.
  intros (Hn & Hp & Hs & Cp & Cs & Hc & _ & Hl).
  destruct (int_str_de_int H _ Hp Cp) as [Dp Ip].
  destruct (int_str_de_int H _ Hs Cs) as [Ds Is].
  unfold destino_fila. rewrite Hl. unfold fila_de_pais.
  apply vacia_false in Hn. rewrite Hn, Dp, Ds, Ip, Is. cbn [negb hd_error].
  destruct p as [n vp vs [c|]]; [reflexivity|]. now contradiction Hc.
Qed.

Lemma destino_filas_de_paises {U : Unicode} (H : digitos_ascii)
    (ps : list pais) :
  Forall recuperable ps -> destino_filas (map fila_de_pais ps) None = Ok ps.
Proof.
  induction 1 as [|p ps Hp _ IH]; [reflexivity|].
  cbn [map destino_filas]. now rewrite (destino_fila_de_pais H p Hp), IH.
Qed.

(** X9.  Saving and loading back gives the same records in the same order:
    when the ASCII digits are digits with their values, the file can be
    written, and every record of the catalogue has a name, numbers that are
    not negative and numerals within the digit limit of [int], a continent
    that is a string, no surrogate character and no field beyond the limit
    of the csv reader, then [guardar_archivo] followed by [leer_archivo]
    returns a catalogue whose records are those of the catalogue saved. *)
Theorem guardar_y_leer {U : Unicode} (m : mundo) :
  digitos_ascii ->
  escribible m = true ->
  Forall recuperable (registros m) ->
  exists cat m2,
    bind (guardar_archivo (paises_catalogo m)) (fun _ => leer_archivo) m
    = (Ok cat, m2)
    /\ map (objetos m2) cat = registros m.
Proof.
  intros H Hw Hr.
  assert (Hcod : codificables m).
  { unfold codificables. unfold registros in Hr.
    rewrite Forall_forall in *. intros r Hin.
    assert (Hp : recuperable (objetos m r)) by (apply Hr; now apply in_map).
    destruct Hp as (_ & _ & _ & _ & _ & _ & Hc & _). exact Hc. }
  unfold bind at 1.
  rewrite guardar_archivo_casos, Hw, (instantanea_codificable m Hcod).
  set (m1 := con_archivo _ m).
  assert (E : leer_archivo m1
              = leer_filas cabecera (map fila_de_pais (registros m)) None [] m1).
  { apply leer_archivo_con_cabecera. subst m1. reducir.
    unfold instantanea, registros. now rewrite map_map. }
  rewrite E.
  pose proof (leer_filas_destino None (map fila_de_pais (registros m)) [] m1)
    as D.
  rewrite (destino_filas_de_paises H _ Hr) in D.
  destruct D as (cat & m2 & L & nuevos & Hcat & _ & Hmap & _).
  exists cat, m2. split; [exact L|]. now rewrite Hcat.
Qed.

Lemma latin1_digitos_ascii : @digitos_ascii Latin1.tablas.
Proof.
  intros c Hc. simpl. unfold Latin1.digito, Latin1.decimal.
  assert (E : ((48 <=? c) && (c <=? 57))%N = true).
  { apply andb_true_iff. split; apply N.leb_le; lia. }
  rewrite E. split; reflexivity.
Defined.

(** Chile and Perú saved and loaded back. *)
Lemma guardar_y_leer_witness :
  let m := mundo_de [Pais (de_ascii "Chile") 19 756 (de_ascii "America");
                     Pais Peru' 33 1285 (de_ascii "America")] [] true in
  exists cat m2,
    bind (@guardar_archivo (paises_catalogo m))
         (fun _ => @leer_archivo Latin1.tablas) m
    = (Ok cat, m2)
    /\ map (objetos m2) cat = registros m.
Proof.
  intros m.
  apply (@guardar_y_leer Latin1.tablas m latin1_digitos_ascii eq_refl).
  assert (C : forall z, Nat.leb (length (str_de_int z)) 4300 = true ->
                        @cabe Latin1.tablas z).
  { intros z Hz. right. now apply Nat.leb_le. }
  assert (R : forall p, nombre p <> [] -> 0 <= poblacion p ->
                        0 <= superficie p ->
                        Nat.leb (length (str_de_int (poblacion p))) 4300 = true ->
                        Nat.leb (length (str_de_int (superficie p))) 4300 = true ->
                        continente p <> None ->
                        codificable (fila_de_pais p) = true ->
                        existsb campo_excesivo (fila_de_pais p) = false ->
                        @recuperable Latin1.tablas p).
  { intros p H1 H2 H3 H4 H5 H6 H7 H8. repeat split; auto. }
  constructor; [|constructor; [|constructor]].
  - apply R; simpl; (discriminate || lia || reflexivity).
  - apply R; simpl; (discriminate || lia || reflexivity).
Defined.

(** ** Adding and then searching *)

Lemma con_entorno_mismo (m : mundo) :
  con_entorno (entrada m) (escribible m) m = m.
Proof. now destruct m. Qed.

(** What an addition that reports success has done. *)
Lemma agregar_pais_exito {U : Unicode} (m m' : mundo) :
  agregar_pais m = (Ok tt, m') ->
  salida m' = salida m ++ [PaisAgregado] ->
  exists linea pob sup lc e4 p s,
    entrada m = linea :: pob :: sup :: lc :: e4
    /\ strip linea <> [] /\ strip lc <> []
    /\ buscar_pais (objetos m) (paises_catalogo m) (strip linea) = []
    /\ int_ pob = Ok p /\ int_ sup = Ok s
    /\ objetos m' = poner (objetos m) (libre m)
                          (Pais (strip linea) p s (strip lc))
    /\ paises_catalogo m' = paises_catalogo m ++ [libre m]
    /\ libre m' = S (libre m)
    /\ entrada m' = e4.
Proof.
  intros H Hs. rewrite agregar_pais_casos in H.
  destruct (entrada m) as [|linea e1]; [discriminate|].
  destruct (vacia (strip linea)) eqn:Hn.
  { injection H as H. subst m'. reducir in Hs.
    apply app_inv_head in Hs. discriminate. }
  destruct (vacia (buscar_pais _ _ _)) eqn:Hb; cbn [negb] in H.
  2:{ injection H as H. subst m'. reducir in Hs.
      apply app_inv_head in Hs. discriminate. }
  destruct e1 as [|pob [|sup [|lc e4]]]; try discriminate.
  destruct (negb _ || _) eqn:Hv.
  { injection H as H. subst m'. reducir in Hs.
    apply app_inv_head in Hs. discriminate. }
  destruct (int_ pob) as [p|] eqn:Hp; [|discriminate].
  destruct (int_ sup) as [s|] eqn:Hsu; [|discriminate].
  apply guardar_y_decir_exito in H. subst m'.
  apply orb_false_iff in Hv. destruct Hv as [_ Hc].
  exists linea, pob, sup, lc, e4, p, s.
  repeat split; try reflexivity; try assumption.
  - now apply vacia_false.
  - now apply vacia_false.
  - now apply vacia_nil.
Qed.

(** X10.  After [agregar_pais] reports success on a catalogue whose
    references are all allocated, the records are those of before followed by
    the new one, and searching the name just stored finds the new record and
    nothing else. *)
Theorem agregar_y_buscar {U : Unicode} (m m' : mundo) :
  asignadas m ->
  agregar_pais m = (Ok tt, m') ->
  salida m' = salida m ++ [PaisAgregado] ->
  let nuevo := objetos m' (libre m) in
  registros m' = registros m ++ [nuevo]
  /\ valido nuevo
  /\ buscar_pais (objetos m') (paises_catalogo m') (nombre nuevo) = [libre m].
Proof.
  intros Ha H Hs.
  destruct (agregar_pais_exito m m' H Hs)
    as [linea [pob [sup [lc [e4 [p [s [He [Hn [Hc [Hb [Hp [Hsu [Ho [Hcat _]]]]]]]]]]]]]]].
  cbv zeta. unfold registros. rewrite Ho, Hcat, poner_mismo.
  assert (Hold : forall r, In r (paises_catalogo m) ->
                           poner (objetos m) (libre m)
                                 (Pais (strip linea) p s (strip lc)) r
                           = objetos m r).
  { intros r Hr. unfold asignadas in Ha. rewrite Forall_forall in Ha.
    specialize (Ha r Hr). apply poner_otro. lia. }
  split; [|split].
  - rewrite map_app. simpl. rewrite poner_mismo. f_equal.
    now apply map_ext_in.
  - unfold valido. simpl. repeat split; try assumption.
    + exact (int_no_negativo _ _ Hp).
    + exact (int_no_negativo _ _ Hsu).
    + now exists (strip lc).
  - cbn [nombre]. unfold buscar_pais. rewrite filter_app. simpl.
    rewrite poner_mismo. cbn [nombre]. rewrite str_in_refl.
    replace (filter _ (paises_catalogo m))
      with (buscar_pais (objetos m) (paises_catalogo m) (strip linea)).
    + now rewrite Hb.
    + unfold buscar_pais. apply filter_ext_in. intros r Hr.
      now rewrite (Hold r Hr).
Qed.

(** India added after Chile. *)
Lemma agregar_y_buscar_witness :
  let m := mundo_de [Pais (de_ascii "Chile") 19 756 (de_ascii "America")]
                    [de_ascii " India "; de_ascii "1400"; de_ascii "3287";
                     de_ascii "Asia"] true in
  let m' := snd (@agregar_pais Latin1.tablas m) in
  registros m' = registros m ++ [objetos m' 1%nat]
  /\ valido (objetos m' 1%nat)
  /\ @buscar_pais Latin1.tablas (objetos m') (paises_catalogo m')
                  (nombre (objetos m' 1%nat)) = [1%nat].
Proof.
  intros m m'.
  apply (@agregar_y_buscar Latin1.tablas m m').
  - repeat constructor.
  - subst m'. destruct (agregar_pais m) as [r mm] eqn:E.
    vm_compute in E. injection E as Er Em. now rewrite <- Er.
  - reflexivity.
Defined.

(** ** Sessions *)

(** X11.  During a session nothing is ever removed, moved or renamed: the
    catalogue of a later state is the earlier catalogue followed by the
    records added since, and every record of the earlier catalogue still has
    the name and the continent it had.  Only populations and areas change. *)
Theorem sesion_conserva_nombres {U : Unicode} (m m' : mundo) :
  asignadas m ->
  sesion m m' ->
  exists agregados,
    paises_catalogo m' = paises_catalogo m ++ agregados
    /\ Forall (fun r => nombre (objetos m' r) = nombre (objetos m r)
                        /\ continente (objetos m' r) = continente (objetos m r))
              (paises_catalogo m).
Proof.
  intros Ha Hs. induction Hs as [|m1 m2 c e w Hs IH Hc].
  - exists []. rewrite app_nil_r. split; [reflexivity|].
    apply Forall_forall. auto.
  - destruct IH as [ag [Hcat Hf]].
    pose proof (sesion_asignadas m m1 Hs Ha) as Ha1.
    destruct (ejecutar_efecto _ _ _ _ _ Hc)
      as [Ho Hl Hc' | p _ _ Ho Hl Hc' | r p s _ _ _ Hor Hot Hl Hc'].
    + exists ag. rewrite Hc', Ho. auto.
    + exists (ag ++ [libre m1]). rewrite Hc', Hcat, app_assoc.
      split; [reflexivity|].
      rewrite Forall_forall in *. intros r Hr. rewrite Ho.
      assert (Hlt : (r < libre m1)%nat).
      { unfold asignadas in Ha1. rewrite Forall_forall in Ha1.
        apply Ha1. rewrite Hcat. apply in_or_app. now left. }
      rewrite poner_otro by lia. now apply Hf.
    + exists ag. rewrite Hc'. split; [exact Hcat|].
      rewrite Forall_forall in *. intros r' Hr'.
      destruct (Nat.eq_dec r' r) as [->|Hne].
      * rewrite Hor. simpl. now apply Hf.
      * rewrite Hot by exact Hne. now apply Hf.
Qed.

Lemma ejecutar_sincronizado {U : Unicode} (c : comando) (m m' : mundo) e w :
  ejecutar c (con_entorno e w m) = (Ok tt, m') ->
  archivo m = Some (instantanea m) ->
  archivo m' = Some (instantanea m').
Proof.
  destruct c as [| |q]; cbn [ejecutar]; intros H Hsync.
  - rewrite agregar_pais_casos in H. reducir in H.
    destruct e as [|linea e1]; [discriminate|].
    destruct (vacia (strip linea)).
    { injection H as H. subst m'. exact Hsync. }
    destruct (negb (vacia (buscar_pais _ _ _))).
    { injection H as H. subst m'. exact Hsync. }
    destruct e1 as [|pob [|sup [|lc e4]]]; try discriminate.
    destruct (negb _ || _).
    { injection H as H. subst m'. exact Hsync. }
    destruct (int_ pob); [|discriminate].
    destruct (int_ sup); [|discriminate].
    apply guardar_y_decir_exito in H. subst m'. reflexivity.
  - rewrite actualizar_pais_casos in H. reducir in H.
    destruct e as [|consulta e1]; [discriminate|].
    destruct (buscar_pais _ _ _) as [|r enc].
    { injection H as H. subst m'. exact Hsync. }
    destruct e1 as [|pob [|sup e3]]; try discriminate.
    destruct (isdigit pob && isdigit sup).
    2:{ injection H as H. subst m'. exact Hsync. }
    destruct (int_ pob); [|discriminate].
    destruct (int_ sup); [|discriminate].
    apply guardar_y_decir_exito in H. subst m'. reflexivity.
  - pose proof (consulta_intacto q (con_entorno e w m)) as I.
    rewrite H in I. destruct I as [Io [_ [Ic Ia]]]. reducir in Io.
    reducir in Ic. reducir in Ia.
    unfold instantanea. rewrite Ia, Io, Ic. exact Hsync.
Qed.

(** X12.  Once the file holds the snapshot of the catalogue in memory, it
    does so after every command of a session that returns normally, whatever
    the user types and whether or not the file can be written at each
    command. *)
Theorem sesion_sincronizada {U : Unicode} (m m' : mundo) :
  archivo m = Some (instantanea m) ->
  sesion m m' ->
  archivo m' = Some (instantanea m').
Proof.
  intros Hsync Hs. induction Hs as [|m1 m2 c e w Hs IH Hc]; [exact Hsync|].
  exact (ejecutar_sincronizado c m1 m2 e w Hc IH).
Qed.

(** India added to a catalogue that holds Chile. *)
Lemma sesion_conserva_nombres_witness :
  let m := mundo_de [Pais (de_ascii "Chile") 19 756 (de_ascii "America")]
                    [] true in
  let e := [de_ascii "India"; de_ascii "1400"; de_ascii "3287";
            de_ascii "Asia"] in
  let m' := snd (@ejecutar Latin1.tablas Agregar (con_entorno e true m)) in
  exists agregados,
    paises_catalogo m' = paises_catalogo m ++ agregados
    /\ Forall (fun r => nombre (objetos m' r) = nombre (objetos m r)
                        /\ continente (objetos m' r) = continente (objetos m r))
              (paises_catalogo m).
Proof.
  intros m e m'.
  apply (@sesion_conserva_nombres Latin1.tablas m m').
  - repeat constructor.
  - apply (@sesion_uno Latin1.tablas). vm_compute. reflexivity.
Defined.

(** The population of Chile updated in a catalogue already saved. *)
Lemma sesion_sincronizada_witness :
  let m := mundo_de [Pais (de_ascii "Chile") 19 756 (de_ascii "America")]
                    [] true in
  let e := [de_ascii "chile"; de_ascii "20"; de_ascii "756"] in
  let m' := snd (@ejecutar Latin1.tablas Actualizar (con_entorno e true m)) in
  archivo m'
  = Some (Contenido
            [cabecera;
             Fila (de_ascii "Chile") (de_ascii "20") (de_ascii "756")
                  (de_ascii "America")] None)
  /\ archivo m' = Some (instantanea m').
Proof.
  intros m e m'. split; [reflexivity|].
  apply (@sesion_sincronizada Latin1.tablas m m').
  - reflexivity.
  - apply (@sesion_uno Latin1.tablas). vm_compute. reflexivity.
Defined.

(** ** Update: a number that cannot be converted *)

(** X13.  When both new values pass [isdigit] but one of them cannot be
    converted by [int], [actualizar_pais] raises [ValueError] without
    printing or saving.  If it is the population, nothing has changed; if it
    is the area, the target already carries the new population in memory,
    its area and every other record being as before. *)
Theorem actualizar_pais_conversion_fallida {U : Unicode}
    (m : mundo) (consulta pob sup : str) (e3 : list str) (r : ref)
    (enc : list ref) :
  entrada m = consulta :: pob :: sup :: e3 ->
  buscar_pais (objetos m) (paises_catalogo m) consulta = r :: enc ->
  isdigit pob = true -> isdigit sup = true ->
  (int_ pob = Raise ValueError ->
   actualizar_pais m = (Raise ValueError, con_entrada e3 m))
  /\ (forall p,
        int_ pob = Ok p -> int_ sup = Raise ValueError ->
        let m' := snd (actualizar_pais m) in
        fst (actualizar_pais m) = Raise ValueError
        /\ objetos m' r
           = Registro (nombre (objetos m r)) p (superficie (objetos m r))
                      (continente (objetos m r))
        /\ (forall r', r' <> r -> objetos m' r' = objetos m r')
        /\ paises_catalogo m' = paises_catalogo m
        /\ archivo m' = archivo m
        /\ salida m' = salida m).
Proof.
  intros He Hb Hdp Hds. split.
  - intros Hp. rewrite actualizar_pais_casos, He, Hb, Hdp, Hds, Hp.
    reflexivity.
  - intros p Hp Hs. rewrite actualizar_pais_casos, He, Hb, Hdp, Hds, Hp, Hs.
    cbn [andb fst snd]. reducir. rewrite poner_mismo.
    repeat split. intros r' Hr'. now apply poner_otro.
Qed.

(** Chile, new population 20, new area a superscript two. *)
Lemma actualizar_pais_conversion_fallida_witness :
  let Chile := Pais (de_ascii "Chile") 19 756 (de_ascii "America") in
  let m := mundo_de [Chile] [de_ascii "chile"; de_ascii "20"; [178%N]] true in
  let m' := snd (@actualizar_pais Latin1.tablas m) in
  fst (@actualizar_pais Latin1.tablas m) = Raise ValueError
  /\ objetos m' 0%nat = Pais (de_ascii "Chile") 20 756 (de_ascii "America")
  /\ (forall r', r' <> 0%nat -> objetos m' r' = objetos m r')
  /\ paises_catalogo m' = paises_catalogo m
  /\ archivo m' = archivo m
  /\ salida m' = salida m.
Proof.
  intros Chile m.
  apply (proj2 (@actualizar_pais_conversion_fallida Latin1.tablas m
                  (de_ascii "chile") (de_ascii "20") [178%N] [] 0%nat []
                  eq_refl eq_refl eq_refl eq_refl) 20 eq_refl eq_refl).
Defined.

(** ** The counts of statistics *)

Lemma sum_desde (l : list Z) (a : Z) : fold_left Z.add l a = a + sum l.
Proof.
  unfold sum. revert a; induction l as [|x l IH]; intros a; simpl; [lia|].
  rewrite (IH (a + x)), (IH x). lia.
Qed.

Lemma sum_cons (x : Z) (l : list Z) : sum (x :: l) = x + sum l.
Proof. unfold sum at 1. simpl. apply sum_desde. Qed.

Lemma dict_set_sum (d : dict) (k : option str) (v : Z) :
  sum (map snd (dict_set d k v)) = sum (map snd d) - dict_get d k 0 + v.
Proof.
  induction d as [|[k1 v1] d IH]; simpl.
  - rewrite sum_cons. unfold sum. simpl. lia.
  - destruct (clave_eqb k k1); simpl; rewrite !sum_cons; [lia|].
    rewrite IH. lia.
Qed.

Lemma dict_set_sin_repetir (d : dict) (k : option str) (v : Z) :
  NoDup (map fst d) -> NoDup (map fst (dict_set d k v)).
Proof.
  induction d as [|[k1 v1] d IH]; simpl; intros H.
  - repeat constructor. intros [].
  - destruct (clave_eqb k k1) eqn:E; simpl; [exact H|].
    inversion H as [|? ? Hn Hd]; subst. constructor; [|now apply IH].
    rewrite dict_set_claves. intros [-> | Hin]; [|contradiction].
    now rewrite clave_eqb_refl in E.
Qed.

Lemma contar_total (o : ref -> pais) (cat : list ref) (d : dict) :
  sum (map snd (fold_left (contar o) cat d)) = sum (map snd d) + len cat
  /\ (NoDup (map fst d) -> NoDup (map fst (fold_left (contar o) cat d))).
Proof.
  revert d; induction cat as [|p cat IH]; intros d.
  - unfold len. simpl. split; [lia | auto].
  - simpl fold_left. destruct (IH (contar o d p)) as [I1 I2]. split.
    + rewrite I1. unfold contar. rewrite dict_set_sum.
      unfold len. simpl length. lia.
    + intros H. apply I2. now apply dict_set_sin_repetir.
Qed.

(** X14.  In the dictionary of counts that [estadisticas] prints no continent
    appears twice, every count is at least one, and the counts add up to the
    number of records of the catalogue. *)
Theorem contar_continentes_total (o : ref -> pais) (cat : list ref) :
  NoDup (map fst (contar_continentes o cat))
  /\ sum (map snd (contar_continentes o cat)) = len cat
  /\ (forall k v, In (k, v) (contar_continentes o cat) ->
                  v = cuenta o cat k /\ 1 <= v).
Proof.
  destruct (contar_total o cat []) as [T1 T2].
  assert (Hnd : NoDup (map fst (contar_continentes o cat)))
    by (apply T2; constructor).
  split; [exact Hnd|]. split; [exact T1|].
  intros k v Hin.
  assert (Hg : forall d, NoDup (map fst d) -> In (k, v) d ->
                         dict_get d k 0 = v).
  { induction d as [|[k1 v1] d IH]; simpl; intros Hd Hin';
      [contradiction|].
    destruct Hin' as [Heq | Hin'].
    - inversion Heq; subst. now rewrite clave_eqb_refl.
    - inversion Hd as [|? ? Hn Hd']; subst.
      destruct (clave_eqb k k1) eqn:E; [|now apply IH].
      apply clave_eqb_eq in E. subst k1. exfalso. apply Hn.
      apply in_map_iff. now exists (k, v). }
  assert (Hv : v = cuenta o cat k).
  { rewrite <- (Hg _ Hnd Hin). apply contar_continentes_cuenta. }
  split; [exact Hv|].
  assert (Hk : In k (map fst (contar_continentes o cat))).
  { apply in_map_iff. now exists (k, v). }
  apply contar_continentes_claves in Hk. destruct Hk as [p [Hp Ep]].
  rewrite Hv. unfold cuenta, len.
  assert (Hf : In p (filter (fun q => clave_eqb (continente (o q)) k) cat)).
  { apply filter_In. split; [exact Hp|]. now apply clave_eqb_eq. }
  destruct (filter _ cat); [contradiction | simpl; lia].
Qed.

(** Two countries of America and one of Asia. *)
Lemma contar_continentes_total_witness :
  let America := de_ascii "America" in
  let ps := [Pais (de_ascii "Chile") 19 756 America;
             Pais (de_ascii "India") 1400 3287 (de_ascii "Asia");
             Pais (de_ascii "Peru") 33 1285 America] in
  let o := fun r => nth r ps pais_vacio in
  2 = cuenta o [0; 1; 2]%nat (Some America) /\ 1 <= 2.
Proof.
  intros America ps o.
  apply (proj2 (proj2 (contar_continentes_total o [0; 1; 2]%nat))
               (Some America) 2).
  now left.
Defined.
